(** * Orbit front end: session store (AuthContext) and request gateway
      (FetchContext)

    A shallow embedding of the two React context providers of the orbit
    front end, [AuthProvider] and [FetchProvider], together with the part
    of the JavaScript platform they run on: values, conversions, web
    storage, the history stack and the axios client defaults. *)

From Stdlib Require Import ZArith QArith Qabs Ascii String DecimalString List Lia.
From stdpp Require Import base option gmap strings list.

Set Warnings "-register-all".
Local Open Scope Z_scope.
Local Open Scope string_scope.
Local Open Scope list_scope.

(** ** JavaScript values *)

(** A finite number is kept by its exact value, a decimal [m * 10^e]:
    every binary64 number has one. The operations that round, division
    and the conversion of text, round to binary64 below. The sign of zero
    is not kept. *)
Inductive JSNumber : Type :=
| NaN
| Infinity (negative : bool)
| Dec (m e : Z).

(** The values the providers handle: what a JSON response or the web
    storage can deliver, and [undefined]. An object is the sequence of its
    property definitions in creation order (a later definition of a key
    replaces the value of an earlier one). Values are finite trees; no
    property holds a function. *)
Inductive JSValue : Type :=
| JUndefined
| JNull
| JBool (b : bool)
| JNumber (n : JSNumber)
| JString (s : string)
| JArray (items : list JSValue)
| JObject (props : list (string * JSValue)).

(** ** Exceptions *)

Inductive Exception : Type := SyntaxError | TypeError.

Inductive Result (A : Type) : Type :=
| Ok (a : A)
| Throw (e : Exception).
Arguments Ok {A} a.
Arguments Throw {A} e.

#[global] Instance Result_ret : MRet Result := fun _ a => Ok a.

#[global] Instance Result_bind : MBind Result := fun _ _ k r =>
  match r with
  | Ok a => k a
  | Throw e => Throw e
  end.

Definition returns {A : Type} (r : Result A) : Prop := exists a, r = Ok a.

(** ** binary64 arithmetic *)

(** [x * 2^k] for [k >= 0], and [x] otherwise. *)
Definition shl (x k : Z) : Z := x * 2 ^ Z.max 0 k.

(** The integer [k] with [2^k <= n/d < 2^(k+1)], for [n, d > 0]. *)
Definition floor_log2 (n d : Z) : Z :=
  let k := Z.log2 n - Z.log2 d in
  if Z.leb (shl d k) (shl n (- k)) then k else k - 1.

(** [a/b] rounded to the nearest integer, a tie to the even one, for
    [a >= 0] and [b > 0]. *)
Definition rne (a b : Z) : Z :=
  let q := a / b in
  let r := a mod b in
  if Z.ltb (2 * r) b then q
  else if Z.ltb b (2 * r) then q + 1
  else if Z.even q then q else q + 1.

(** The exact value [M * 2^q] as a decimal. *)
Definition dyadic (M q : Z) : JSNumber :=
  if Z.leb 0 q then Dec (M * 2 ^ q) 0 else Dec (M * 5 ^ (- q)) q.

(** The binary64 number nearest to [n/d], for [n, d > 0]: 53 significant
    bits, the unit in the last place no finer than [2^-1074], infinite
    from [2^1024]. *)
Definition binary64_pos (n d : Z) : JSNumber :=
  let q := Z.max (floor_log2 n d - 52) (-1074) in
  let M := rne (shl n (- q)) (shl d q) in
  if Z.leb 0 q && Z.leb (2 ^ 1024) (M * 2 ^ q) then Infinity false
  else dyadic M q.

Definition negate (x : JSNumber) : JSNumber :=
  match x with
  | NaN => NaN
  | Infinity negative => Infinity (negb negative)
  | Dec m e => Dec (- m) e
  end.

(** The binary64 number nearest to [n/d], for [d > 0]. *)
Definition binary64 (n d : Z) : JSNumber :=
  if Z.eqb n 0 then Dec 0 0
  else if Z.ltb n 0 then negate (binary64_pos (- n) d)
  else binary64_pos n d.

(** ** Platform built-ins

    The providers call [JSON.parse], [JSON.stringify] and the implicit
    string/number conversions of the language. They belong to the
    platform, so the embedding is parametric in them; [ecma] further down
    is the reference implementation used to run the model.
    [JSON.stringify] gives a string or [undefined], here [None]. *)
Class Platform : Type := {
  JSON_parse : string -> Result JSValue;
  JSON_stringify : JSValue -> option string;
  NumberToString : JSNumber -> string;
  StringToNumber : string -> JSNumber
}.

Fixpoint join (sep : string) (l : list string) : string :=
  match l with
  | [] => ""
  | [s] => s
  | s :: rest => s +:+ sep +:+ join sep rest
  end.

(** A string or [undefined] as a value. *)
Definition string_or_undefined (o : option string) : JSValue :=
  match o with
  | Some s => JString s
  | None => JUndefined
  end.

(** Own-property lookup on an object: the last definition of the key. *)
Fixpoint lookup_prop (k : string) (props : list (string * JSValue)) : option JSValue :=
  match props with
  | [] => None
  | (k', v) :: rest =>
      match lookup_prop k rest with
      | Some v' => Some v'
      | None => if String.eqb k' k then Some v else None
      end
  end.

(** A conversion applied to the elements of a list in order; the first
    exception ends it. *)
Section Traversal.
Context {A B : Type} (f : A -> Result B).

Fixpoint traverse (l : list A) : Result (list B) :=
  match l with
  | [] => Ok []
  | x :: rest =>
      y ← f x;
      ys ← traverse rest;
      Ok (y :: ys)
  end.
End Traversal.

Section Conversions.
Context {P : Platform}.

(** ToString. An object converts through ToPrimitive: its [toString] is
    the inherited one, giving [[object Object]], unless the object has an
    own [toString] property; that one is no function, [valueOf] gives
    back the object, and the conversion is a TypeError. An array prints
    its elements in order, separated by commas, with [null] and
    [undefined] elements printed as nothing. *)
Fixpoint ToString (v : JSValue) : Result string :=
  match v with
  | JUndefined => Ok "undefined"
  | JNull => Ok "null"
  | JBool true => Ok "true"
  | JBool false => Ok "false"
  | JNumber n => Ok (NumberToString n)
  | JString s => Ok s
  | JArray items =>
      parts ← traverse (fun x => match x with
                                 | JUndefined | JNull => Ok ""
                                 | _ => ToString x
                                 end) items;
      Ok (join "," parts)
  | JObject props =>
      match lookup_prop "toString" props with
      | Some _ => Throw TypeError
      | None => Ok "[object Object]"
      end
  end.

(** ToNumber. Arrays and objects go through ToPrimitive, which for them
    is their string form, or its TypeError. *)
Definition ToNumber (v : JSValue) : Result JSNumber :=
  match v with
  | JUndefined => Ok NaN
  | JNull => Ok (Dec 0 0)
  | JBool true => Ok (Dec 1 0)
  | JBool false => Ok (Dec 0 0)
  | JNumber n => Ok n
  | JString s => Ok (StringToNumber s)
  | JArray _ | JObject _ => s ← ToString v; Ok (StringToNumber s)
  end.
End Conversions.

(** ToBoolean: the falsy values are [undefined], [null], [false], zero,
    [NaN] and the empty string. *)
Definition ToBoolean (v : JSValue) : bool :=
  match v with
  | JUndefined | JNull => false
  | JBool b => b
  | JNumber NaN => false
  | JNumber (Infinity _) => true
  | JNumber (Dec m _) => negb (Z.eqb m 0)
  | JString s => negb (String.eqb s "")
  | JArray _ | JObject _ => true
  end.

(** [x < y] on numbers; any comparison with [NaN] is false. *)
Definition dec_ltb (m1 e1 m2 e2 : Z) : bool :=
  let e := Z.min e1 e2 in
  Z.ltb (m1 * 10 ^ (e1 - e)) (m2 * 10 ^ (e2 - e)).

Definition number_ltb (x y : JSNumber) : bool :=
  match x, y with
  | NaN, _ | _, NaN => false
  | Infinity false, _ => false
  | _, Infinity true => false
  | Infinity true, _ => true
  | _, Infinity false => true
  | Dec m1 e1, Dec m2 e2 => dec_ltb m1 e1 m2 e2
  end.

(** The rational a finite number stands for. *)
Definition dec_value (m e : Z) : Q :=
  if Z.leb 0 e then inject_Z (m * 10 ^ e) else Qmake m (Z.to_pos (10 ^ (- e))).

(** Property read [v.k]. Reading a property of [null] or [undefined] is a
    TypeError. The keys the providers read (token, userInfo, expiresAt,
    role, csrfToken) are not inherited from any built-in prototype and are
    not indices, so on arrays and primitives they read as [undefined]. *)
Definition Get (v : JSValue) (k : string) : Result JSValue :=
  match v with
  | JUndefined | JNull => Throw TypeError
  | JObject props => Ok (default JUndefined (lookup_prop k props))
  | _ => Ok JUndefined
  end.

(** [v === s] for a string literal [s]: no conversion is applied. *)
Definition strict_equals_string (v : JSValue) (s : string) : bool :=
  match v with
  | JString t => String.eqb t s
  | _ => false
  end.

(** ** Web storage and history *)

Definition getItem (storage : gmap string string) (k : string) : JSValue :=
  match storage !! k with
  | Some s => JString s
  | None => JNull
  end.

(** [setItem] converts the value to a string first. *)
Definition setItem {P : Platform} (k : string) (v : JSValue)
    (storage : gmap string string) : Result (gmap string string) :=
  text ← ToString v;
  Ok (<[k := text]> storage).

Definition removeItem (k : string) (storage : gmap string string) : gmap string string :=
  delete k storage.

(** ** AuthContext: the session store *)

Record AuthState : Type := mkAuthState {
  token : JSValue;
  expiresAt : JSValue;
  userInfo : JSValue
}.

(** What the provider works on: the origin's [localStorage], the state
    cell of [useState], and the routes pushed on the history stack. *)
Record World : Type := mkWorld {
  localStorage : gmap string string;
  authState : AuthState;
  history : list string
}.

Definition emptyAuthState : AuthState :=
  {| token := JNull; expiresAt := JNull; userInfo := JObject [] |}.

(** [useState initial]: the first render installs the initial value, a
    later render keeps the value of the cell. *)
Definition useState {A : Type} (cell : option A) (initial : A) : A :=
  match cell with
  | Some current => current
  | None => initial
  end.

(** A call on the world: it returns or raises, and leaves a world either
    way; what a call did before it raised stays done. *)
Definition Effect (A : Type) : Type := World -> Result A * World.

#[global] Instance Effect_ret : MRet Effect := fun _ a w => (Ok a, w).

#[global] Instance Effect_bind : MBind Effect := fun _ _ k m w =>
  match m w with
  | (Ok a, w') => k a w'
  | (Throw e, w') => (Throw e, w')
  end.

Definition lift {A : Type} (r : Result A) : Effect A := fun w => (r, w).

Definition localStorage_setItem {P : Platform} (k : string) (v : JSValue) : Effect unit :=
  fun w =>
    match setItem k v (localStorage w) with
    | Ok storage =>
        (Ok tt, {| localStorage := storage; authState := authState w; history := history w |})
    | Throw e => (Throw e, w)
    end.

(** The setter of [useState]: the cell is replaced. *)
Definition setAuthState (st : AuthState) : Effect unit :=
  fun w => (Ok tt, {| localStorage := localStorage w; authState := st; history := history w |}).

(** A clock reading is a time value: an integer number of milliseconds of
    magnitude at most 8640000000000000, which binary64 holds exactly. *)
Definition max_time : Z := 8640000000000000.

Section AuthContext.
Context {P : Platform}.

(** The body of [AuthProvider] up to [useState]. The argument of
    [useState] is an ordinary expression, evaluated on every render. *)
Definition AuthProvider (storage : gmap string string) (cell : option AuthState)
    : Result AuthState :=
  let userInfo := getItem storage "userInfo" in
  let expiresAt := getItem storage "expiresAt" in
  parsed ← (if ToBoolean userInfo
            then text ← ToString userInfo; JSON_parse text
            else Ok (JObject []));
  Ok (useState cell {| token := JNull; expiresAt := expiresAt; userInfo := parsed |}).

(** Start of the application: the first render, on an empty cell. *)
Definition hydrate (storage : gmap string string) (routes : list string) : Result World :=
  st ← AuthProvider storage None;
  Ok {| localStorage := storage; authState := st; history := routes |}.

(** [setAuthInfo], exposed as [setAuthState]. The parameter pattern
    [{ token, userInfo, expiresAt }] reads the three properties of the
    argument; the two writes and the state update follow in the order of
    the source. *)
Definition setAuthInfo (authInfo : JSValue) : Effect unit :=
  token ← lift (Get authInfo "token");
  userInfo ← lift (Get authInfo "userInfo");
  expiresAt ← lift (Get authInfo "expiresAt");
  _ ← localStorage_setItem "userInfo" (string_or_undefined (JSON_stringify userInfo));
  _ ← localStorage_setItem "expiresAt" expiresAt;
  setAuthState {| token := token; expiresAt := expiresAt; userInfo := userInfo |}.

(** [new Date().getTime() / 1000] for a clock reading of [now]
    milliseconds: the binary64 quotient. Beyond the time values, where no
    clock reading lies, the exact quotient is kept. *)
Definition seconds (now : Z) : JSNumber :=
  if Z.leb (Z.abs now) max_time then binary64 now 1000 else Dec now (-3).

(** The comparison converts [expiresAt] to a number, which can raise. *)
Definition isAuthenticated (st : AuthState) (now : Z) : Result bool :=
  if negb (ToBoolean (token st)) || negb (ToBoolean (expiresAt st))
  then Ok false
  else y ← ToNumber (expiresAt st);
       Ok (number_ltb (seconds now) y).
End AuthContext.

Definition logout (w : World) : World :=
  let storage1 := removeItem "userInfo" (localStorage w) in
  let storage2 := removeItem "expiresAt" storage1 in
  {| localStorage := storage2;
     authState := {| token := JNull; expiresAt := JNull; userInfo := JObject [] |};
     history := history w ++ ["/login"] |}.

Definition isAdmin (st : AuthState) : Result bool :=
  role ← Get (userInfo st) "role";
  Ok (strict_equals_string role "admin").

(** The operations the provider hands to the view layer, with the clock
    reading as an input of [isAuthenticated]. *)
Inductive AuthOp : Type :=
| OpSetAuthState (authInfo : JSValue)
| OpLogout
| OpIsAuthenticated (now : Z)
| OpIsAdmin.

Definition run_auth {P : Platform} (op : AuthOp) : Effect unit :=
  match op with
  | OpSetAuthState authInfo => setAuthInfo authInfo
  | OpLogout => fun w => (Ok tt, logout w)
  | OpIsAuthenticated now => fun w => (_ ← isAuthenticated (authState w) now; Ok tt, w)
  | OpIsAdmin => fun w => (_ ← isAdmin (authState w); Ok tt, w)
  end.

(** A sequence of calls; an exception is raised to the caller, and the
    next call finds the world the failing call left. *)
Fixpoint run_auth_all {P : Platform} (ops : list AuthOp) (w : World) : World :=
  match ops with
  | [] => w
  | op :: rest => run_auth_all rest (snd (run_auth op w))
  end.

(** ** FetchContext: the request gateway *)

(** Who issued a request: the effect of the provider, or a consumer of the
    context. *)
Inductive Origin : Type := ByHandshake | ByCaller.

(** A request as it leaves the client: the default headers of the
    instance are merged into it at the call. Only the headers the gateway
    itself sets are tracked. *)
Record Request : Type := mkRequest {
  origin : Origin;
  instance : nat;
  method : string;
  url : string;
  headers : gmap string JSValue
}.

(** The handshake: [Scheduled] while the effect registered by the mounting
    render has not run yet, then the promise returned by [getCsrfToken]. *)
Inductive Promise : Type := Scheduled | Pending | Fulfilled | Rejected.

(** [instances] holds [defaults.headers] of every client created so far,
    one per render of the provider, the client of the mounting render
    first: [axios.create] is called in the body of the component. *)
Record Gateway : Type := mkGateway {
  instances : list (gmap string JSValue);
  handshake : Promise;
  sent : list Request
}.

(** [axios.create({ baseURL })]: no default header of the gateway's own. *)
Definition axios_create : gmap string JSValue := ∅.

(** A request through instance [i]; it leaves at once, with the defaults
    the instance has at that moment. *)
Definition request (o : Origin) (i : nat) (m u : string) (g : Gateway) : Gateway :=
  match instances g !! i with
  | Some defaults =>
      {| instances := instances g;
         handshake := handshake g;
         sent := sent g ++ [mkRequest o i m u defaults] |}
  | None => g
  end.

(** [getCsrfToken] up to its [await]: the GET is issued through the
    [authAxios] of the render that registered the effect. *)
Definition getCsrfToken_call (g : Gateway) : Gateway :=
  let g' := request ByHandshake 0 "GET" "/csrf-token" g in
  {| instances := instances g'; handshake := Pending; sent := sent g' |}.

(** [getCsrfToken] after its [await]: [Some data] is a response with body
    [data], [None] a failed request. A promise settles once. *)
Definition getCsrfToken_resume (response : option JSValue) (g : Gateway) : Gateway :=
  match handshake g with
  | Pending =>
      match response with
      | Some data =>
          match Get data "csrfToken" with
          | Ok csrfToken =>
              {| instances := alter (insert "X-CSRF-Token" csrfToken) 0%nat (instances g);
                 handshake := Fulfilled;
                 sent := sent g |}
          | Throw _ =>
              {| instances := instances g; handshake := Rejected; sent := sent g |}
          end
      | None =>
          {| instances := instances g; handshake := Rejected; sent := sent g |}
      end
  | _ => g
  end.

(** A render of [FetchProvider]: it creates a client. The mounting render
    registers the effect, which has an empty dependency list; a later
    render registers nothing. *)
Definition FetchProvider (mounted : option Gateway) : Gateway :=
  match mounted with
  | None =>
      {| instances := [axios_create]; handshake := Scheduled; sent := [] |}
  | Some g =>
      {| instances := instances g ++ [axios_create];
         handshake := handshake g;
         sent := sent g |}
  end.

(** The effect of [useEffect]: it runs once, after the mounting render is
    committed and after the effects of the children. *)
Definition run_effect (g : Gateway) : Gateway :=
  match handshake g with
  | Scheduled => getCsrfToken_call g
  | _ => g
  end.

(** What can happen to a mounted gateway: a render, the run of its
    effect, the answer to the handshake, a call by a consumer. *)
Inductive GatewayEvent : Type :=
| EvRender
| EvEffect
| EvResponse (response : option JSValue)
| EvRequest (i : nat) (m u : string).

Definition gateway_step (g : Gateway) (ev : GatewayEvent) : Gateway :=
  match ev with
  | EvRender => FetchProvider (Some g)
  | EvEffect => run_effect g
  | EvResponse response => getCsrfToken_resume response g
  | EvRequest i m u => request ByCaller i m u g
  end.

Definition gateway_run (evs : list GatewayEvent) (g : Gateway) : Gateway :=
  fold_left gateway_step evs g.

Definition csrf_header (defaults : gmap string JSValue) : option JSValue :=
  defaults !! "X-CSRF-Token".

Definition is_handshake (r : Request) : bool :=
  match origin r with
  | ByHandshake => true
  | ByCaller => false
  end.

(** ** Reference platform

    The built-ins after ECMA-262, on the value model above. A string of
    the model is the UTF-8 form of the JavaScript string. *)
Module Ecma.

Definition code (c : ascii) : Z := Z.of_N (N_of_ascii c).

Definition char_of (n : Z) : ascii := ascii_of_N (Z.to_N n).

Definition dquote : ascii := char_of 34.

Definition chars (s : string) : list ascii := list_ascii_of_string s.

Definition text (cs : list ascii) : string := string_of_list_ascii cs.

Definition is_digit (c : ascii) : bool := Z.leb 48 (code c) && Z.leb (code c) 57.

Fixpoint span_digits (cs : list ascii) : list ascii * list ascii :=
  match cs with
  | c :: rest =>
      if is_digit c
      then let '(ds, tail) := span_digits rest in (c :: ds, tail)
      else ([], cs)
  | [] => ([], [])
  end.

Definition digits_value (ds : list ascii) : Z :=
  fold_left (fun acc c => acc * 10 + (code c - 48)) ds 0.

(** The decimal digits of [n >= 0]. *)
Definition digits_of (n : Z) : list ascii :=
  chars (NilZero.string_of_uint (N.to_uint (Z.to_N n))).

Fixpoint drop_zeros (cs : list ascii) : list ascii :=
  match cs with
  | c :: rest => if Ascii.eqb c "0" then drop_zeros rest else cs
  | [] => []
  end.

Definition strip_trailing_zeros (ds : list ascii) : list ascii :=
  rev (drop_zeros (rev ds)).

Definition zeros (n : Z) : list ascii := repeat "0"%char (Z.to_nat n).

(** The value [m * 10^e], [m > 0], without trailing zeros in [m]. *)
Definition strip_decimal (m e : Z) : Z * Z :=
  let all := digits_of m in
  let ds := strip_trailing_zeros all in
  (digits_value ds, e + Z.of_nat (length all) - Z.of_nat (length ds)).

(** One way to write each finite number: an integer at exponent 0, any
    other number without trailing zeros. *)
Definition canonical (x : JSNumber) : JSNumber :=
  match x with
  | Dec m e =>
      if Z.eqb m 0 then Dec 0 0 else
      let '(m0, e0) := strip_decimal (Z.abs m) e in
      let sign := if Z.ltb m 0 then -1 else 1 in
      if Z.leb 0 e0 then Dec (sign * m0 * 10 ^ e0) 0 else Dec (sign * m0) e0
  | _ => x
  end.

(** The binary64 number nearest to [m * 10^e]. *)
Definition of_decimal (m e : Z) : JSNumber :=
  canonical (if Z.leb 0 e then binary64 (m * 10 ^ e) 1 else binary64 m (10 ^ (- e))).

Definition normalize (x : JSNumber) : JSNumber :=
  match x with
  | Dec m e => of_decimal m e
  | _ => x
  end.

Definition same_value (x y : JSNumber) : bool :=
  match x, y with
  | Dec a ea, Dec b eb => negb (dec_ltb a ea b eb) && negb (dec_ltb b eb a ea)
  | Infinity s, Infinity t => Bool.eqb s t
  | _, _ => false
  end.

(** A decimal of [k] digits that reads back as the number [m * 10^e] of
    [L > k] digits, if there is one: of the two that enclose the number,
    the one that reads back, the closer one when both do, the even one on
    a tie. *)
Definition candidate (m e L k : Z) : option (Z * Z) :=
  let d := 10 ^ (L - k) in
  let lo := m / d in
  let r := m mod d in
  let t := e + (L - k) in
  let lo_ok := same_value (of_decimal lo t) (Dec m e) in
  let hi_ok := same_value (of_decimal (lo + 1) t) (Dec m e) in
  if lo_ok && hi_ok
  then Some (if Z.ltb (2 * r) d then lo
             else if Z.ltb d (2 * r) then lo + 1
             else if Z.even lo then lo else lo + 1, t)
  else if lo_ok then Some (lo, t)
  else if hi_ok then Some (lo + 1, t)
  else None.

(** The shortest decimal that reads back as the binary64 number
    [m * 10^e]; 17 digits always do. *)
Definition shortest (m e : Z) : Z * Z :=
  let L := Z.of_nat (length (digits_of m)) in
  default (m, e)
    (head (omap (fun k => if Z.ltb k L then candidate m e L k else None) (seqZ 1 17))).

(** The digits [s] at exponent [t] in the notation of Number::toString:
    with [k] significant digits [ds] and the value read as [0.ds * 10^n]. *)
Definition notation (s t : Z) : list ascii :=
  let all := digits_of s in
  let ds := strip_trailing_zeros all in
  let k := Z.of_nat (length ds) in
  let n := Z.of_nat (length all) + t in
  if Z.leb k n && Z.leb n 21 then ds ++ zeros (n - k)
  else if Z.ltb 0 n && Z.leb n 21
       then take (Z.to_nat n) ds ++ "."%char :: drop (Z.to_nat n) ds
  else if Z.ltb (-6) n && Z.leb n 0
       then "0"%char :: "."%char :: zeros (- n) ++ ds
  else
    let ex := n - 1 in
    let exponent :=
      "e"%char :: (if Z.ltb ex 0 then "-"%char else "+"%char)
               :: digits_of (Z.abs ex) in
    if Z.eqb k 1 then ds ++ exponent
    else take 1 ds ++ "."%char :: drop 1 ds ++ exponent.

(** Number::toString, radix 10: the shortest digits that read back as the
    number. *)
Definition number_to_string (x : JSNumber) : string :=
  match normalize x with
  | NaN => "NaN"
  | Infinity false => "Infinity"
  | Infinity true => "-Infinity"
  | Dec m e =>
      if Z.eqb m 0 then "0" else
      let '(m0, e0) := strip_decimal (Z.abs m) e in
      let '(s, t) := shortest m0 e0 in
      text ((if Z.ltb m 0 then ["-"%char] else []) ++ notation s t)
  end.

(** *** StringToNumber *)

Definition ws1 (a : ascii) : bool :=
  let x := code a in
  Z.eqb x 9 || Z.eqb x 10 || Z.eqb x 11 || Z.eqb x 12 || Z.eqb x 13 || Z.eqb x 32.

(** U+00A0. *)
Definition ws2 (a b : ascii) : bool :=
  Z.eqb (code a) 194 && Z.eqb (code b) 160.

(** U+1680, U+2000..U+200A, U+2028, U+2029, U+202F, U+205F, U+3000,
    U+FEFF. *)
Definition ws3 (a b c : ascii) : bool :=
  let '(x, y, z) := (code a, code b, code c) in
  Z.eqb x 225 && Z.eqb y 154 && Z.eqb z 128
  || Z.eqb x 226 && Z.eqb y 128
     && (Z.leb 128 z && Z.leb z 138 || Z.eqb z 168 || Z.eqb z 169 || Z.eqb z 175)
  || Z.eqb x 226 && Z.eqb y 129 && Z.eqb z 159
  || Z.eqb x 227 && Z.eqb y 128 && Z.eqb z 128
  || Z.eqb x 239 && Z.eqb y 187 && Z.eqb z 191.

Fixpoint trim_left (cs : list ascii) : list ascii :=
  match cs with
  | a :: rest1 =>
      if ws1 a then trim_left rest1 else
      match rest1 with
      | b :: rest2 =>
          if ws2 a b then trim_left rest2 else
          match rest2 with
          | c :: rest3 => if ws3 a b c then trim_left rest3 else cs
          | [] => cs
          end
      | [] => cs
      end
  | [] => []
  end.

(** The same on the reversed text: the bytes of a character come last
    byte first. *)
Fixpoint trim_left_rev (cs : list ascii) : list ascii :=
  match cs with
  | a :: rest1 =>
      if ws1 a then trim_left_rev rest1 else
      match rest1 with
      | b :: rest2 =>
          if ws2 b a then trim_left_rev rest2 else
          match rest2 with
          | c :: rest3 => if ws3 c b a then trim_left_rev rest3 else cs
          | [] => cs
          end
      | [] => cs
      end
  | [] => []
  end.

Definition trim (cs : list ascii) : list ascii :=
  rev (trim_left_rev (rev (trim_left cs))).

Definition radix_digit (radix : Z) (c : ascii) : option Z :=
  let x := code c in
  let v := if Z.leb 48 x && Z.leb x 57 then x - 48
           else if Z.leb 97 x && Z.leb x 102 then x - 87
           else if Z.leb 65 x && Z.leb x 70 then x - 55
           else radix in
  if Z.ltb v radix then Some v else None.

Fixpoint radix_value (radix : Z) (acc : Z) (cs : list ascii) : option Z :=
  match cs with
  | [] => Some acc
  | c :: rest =>
      match radix_digit radix c with
      | Some v => radix_value radix (acc * radix + v) rest
      | None => None
      end
  end.

Definition radix_literal (radix : Z) (ds : list ascii) : JSNumber :=
  match ds with
  | [] => NaN
  | _ => match radix_value radix 0 ds with
         | Some v => of_decimal v 0
         | None => NaN
         end
  end.

Definition split_sign (cs : list ascii) : Z * list ascii :=
  match cs with
  | "+"%char :: rest => (1, rest)
  | "-"%char :: rest => (-1, rest)
  | _ => (1, cs)
  end.

(** StrUnsignedDecimalLiteral, [Infinity] apart: digits with an optional
    fraction, or a fraction alone, then an optional exponent; the value
    is rounded to binary64. *)
Definition unsigned_decimal (sign : Z) (cs : list ascii) : JSNumber :=
  let '(ip, r1) := span_digits cs in
  let '(fp, r2) := match r1 with
                   | "."%char :: t => span_digits t
                   | _ => ([], r1)
                   end in
  match ip ++ fp with
  | [] => NaN
  | ds =>
      let m := sign * digits_value ds in
      let e := - Z.of_nat (length fp) in
      match r2 with
      | [] => of_decimal m e
      | c :: t =>
          if Ascii.eqb c "e" || Ascii.eqb c "E" then
            let '(esign, t') := split_sign t in
            match span_digits t' with
            | ((_ :: _) as ed, []) => of_decimal m (e + esign * digits_value ed)
            | _ => NaN
            end
          else NaN
      end
  end.

Definition string_to_number (s : string) : JSNumber :=
  match trim (chars s) with
  | [] => Dec 0 0
  | "0"%char :: "x"%char :: ds | "0"%char :: "X"%char :: ds => radix_literal 16 ds
  | "0"%char :: "o"%char :: ds | "0"%char :: "O"%char :: ds => radix_literal 8 ds
  | "0"%char :: "b"%char :: ds | "0"%char :: "B"%char :: ds => radix_literal 2 ds
  | cs =>
      let '(sign, body) := split_sign cs in
      if String.eqb (text body) "Infinity" then Infinity (Z.ltb sign 0)
      else unsigned_decimal sign body
  end.

(** *** JSON.stringify *)

Definition hex_char (n : Z) : ascii :=
  if Z.ltb n 10 then char_of (48 + n) else char_of (87 + n).

(** QuoteJSONString, the part between the quotes. A lone surrogate, three
    bytes from 0xED 0xA0, is written as its escape. *)
Fixpoint escape (cs : list ascii) : list ascii :=
  match cs with
  | [] => []
  | c :: rest =>
      let x := code c in
      if Z.eqb x 8 then "\"%char :: "b"%char :: escape rest
      else if Z.eqb x 9 then "\"%char :: "t"%char :: escape rest
      else if Z.eqb x 10 then "\"%char :: "n"%char :: escape rest
      else if Z.eqb x 12 then "\"%char :: "f"%char :: escape rest
      else if Z.eqb x 13 then "\"%char :: "r"%char :: escape rest
      else if Z.ltb x 32
           then chars "\u00" ++ hex_char (x / 16) :: hex_char (x mod 16) :: escape rest
      else if Z.eqb x 34 then "\"%char :: dquote :: escape rest
      else if Z.eqb x 92 then "\"%char :: "\"%char :: escape rest
      else
        match rest with
        | b :: d :: rest' =>
            let '(y, z) := (code b, code d) in
            if Z.eqb x 237 && Z.leb 160 y
            then chars "\ud" ++ hex_char ((y mod 64) / 4)
                   :: hex_char ((y mod 4) * 4 + (z mod 64) / 16)
                   :: hex_char (z mod 16) :: escape rest'
            else c :: escape rest
        | _ => c :: escape rest
        end
  end.

Definition quote (s : string) : list ascii :=
  dquote :: escape (chars s) ++ [dquote].

Fixpoint join_chars (sep : ascii) (l : list (list ascii)) : list ascii :=
  match l with
  | [] => []
  | [x] => x
  | x :: rest => x ++ sep :: join_chars sep rest
  end.

(** A key that is an array index: a canonical numeric string below
    [2^32 - 1]. *)
Definition array_index (k : string) : option Z :=
  let cs := chars k in
  if forallb is_digit cs
     && negb (Nat.eqb (length cs) 0)
     && (Nat.eqb (length cs) 1 || negb (String.eqb (substring 0 1 k) "0"))
     && Z.ltb (digits_value cs) 4294967295
  then Some (digits_value cs) else None.

(** The own properties of an object from its definitions: a key keeps the
    place of its first definition and the value of its last. *)
Fixpoint define {A : Type} (k : string) (v : A) (props : list (string * A))
    : list (string * A) :=
  match props with
  | [] => [(k, v)]
  | (k', v') :: rest =>
      if String.eqb k' k then (k', v) :: rest else (k', v') :: define k v rest
  end.

Definition own_properties {A : Type} (props : list (string * A)) : list (string * A) :=
  fold_left (fun acc kv => define (fst kv) (snd kv) acc) props [].

Fixpoint insert_index {A : Type} (i : Z) (p : string * A) (l : list (Z * (string * A)))
    : list (Z * (string * A)) :=
  match l with
  | [] => [(i, p)]
  | (j, q) :: rest =>
      if Z.ltb i j then (i, p) :: l else (j, q) :: insert_index i p rest
  end.

(** OrdinaryOwnPropertyKeys: array indices in ascending order, then the
    other keys in creation order. *)
Definition enumeration_order {A : Type} (props : list (string * A)) : list (string * A) :=
  let indexed :=
    fold_left (fun acc p => match array_index (fst p) with
                            | Some i => insert_index i p acc
                            | None => acc
                            end) props [] in
  List.map snd indexed
  ++ List.filter (fun p => match array_index (fst p) with
                           | Some _ => false
                           | None => true
                           end) props.

(** SerializeJSONProperty without replacer or indentation; [None] stands
    for [undefined]. *)
Fixpoint serialize (v : JSValue) : option (list ascii) :=
  match v with
  | JUndefined => None
  | JNull => Some (chars "null")
  | JBool true => Some (chars "true")
  | JBool false => Some (chars "false")
  | JNumber n =>
      match normalize n with
      | Dec m e => Some (chars (number_to_string (Dec m e)))
      | _ => Some (chars "null")
      end
  | JString s => Some (quote s)
  | JArray items =>
      let parts := List.map (fun x => default (chars "null") (serialize x)) items in
      Some ("["%char :: join_chars ","%char parts ++ ["]"%char])
  | JObject props =>
      let serialized := List.map (fun kv => match kv with
                                            | (k, x) => (k, serialize x)
                                            end) props in
      let parts :=
        omap (fun kv => match snd kv with
                        | Some s => Some (quote (fst kv) ++ ":"%char :: s)
                        | None => None
                        end)
             (enumeration_order (own_properties serialized)) in
      Some ("{"%char :: join_chars ","%char parts ++ ["}"%char])
  end.

Definition stringify (v : JSValue) : option string :=
  text <$> serialize v.

(** *** JSON.parse *)

Inductive Token : Type :=
| TLBrace | TRBrace | TLBracket | TRBracket | TColon | TComma
| TString (s : string)
| TNumber (n : JSNumber)
| TLiteral (v : JSValue).

(** The content of a string token: a byte of the text, or the code unit
    of a [\uXXXX] escape. *)
Inductive StringItem : Type :=
| Raw (c : ascii)
| Unit (u : Z).

(** UTF-8 of a code point. *)
Definition utf8 (u : Z) : list ascii :=
  if Z.ltb u 128 then [char_of u]
  else if Z.ltb u 2048 then [char_of (192 + u / 64); char_of (128 + u mod 64)]
  else if Z.ltb u 65536
       then [char_of (224 + u / 4096); char_of (128 + (u / 64) mod 64);
             char_of (128 + u mod 64)]
  else [char_of (240 + u / 262144); char_of (128 + (u / 4096) mod 64);
        char_of (128 + (u / 64) mod 64); char_of (128 + u mod 64)].

Definition is_high_surrogate (u : Z) : bool := Z.leb 55296 u && Z.leb u 56319.
Definition is_low_surrogate (u : Z) : bool := Z.leb 56320 u && Z.leb u 57343.

(** The bytes of a string token; an escaped surrogate pair is one code
    point. *)
Fixpoint decode (items : list StringItem) : list ascii :=
  match items with
  | [] => []
  | Raw c :: rest => c :: decode rest
  | Unit hi :: rest =>
      match rest with
      | Unit lo :: rest' =>
          if is_high_surrogate hi && is_low_surrogate lo
          then utf8 (65536 + (hi - 55296) * 1024 + (lo - 56320)) ++ decode rest'
          else utf8 hi ++ decode rest
      | _ => utf8 hi ++ decode rest
      end
  end.

(** A JSON number: [-]int[.frac][(e|E)[+|-]digits], no leading zero,
    rounded to binary64. *)
Definition json_number (w : list ascii) : option JSNumber :=
  let '(sign, r0) := match w with
                     | "-"%char :: t => (-1, t)
                     | _ => (1, w)
                     end in
  let '(ip, r1) := span_digits r0 in
  let leading_zero := match ip with
                      | "0"%char :: _ :: _ => true
                      | _ => false
                      end in
  let fraction := match r1 with
                  | "."%char :: t =>
                      match span_digits t with
                      | ([], _) => None
                      | (fp, r2) => Some (fp, r2)
                      end
                  | _ => Some ([], r1)
                  end in
  match ip, leading_zero, fraction with
  | _ :: _, false, Some (fp, r2) =>
      let m := sign * digits_value (ip ++ fp) in
      let e := - Z.of_nat (length fp) in
      match r2 with
      | [] => Some (of_decimal m e)
      | c :: t =>
          if Ascii.eqb c "e" || Ascii.eqb c "E" then
            let '(esign, t') := split_sign t in
            match span_digits t' with
            | ((_ :: _) as ed, []) => Some (of_decimal m (e + esign * digits_value ed))
            | _ => None
            end
          else None
      end
  | _, _, _ => None
  end.

(** A word is a maximal run of letters, digits, [+], [-] and [.]: it must
    be a literal or a number. *)
Definition is_word_char (c : ascii) : bool :=
  let x := code c in
  is_digit c || Z.leb 97 x && Z.leb x 122 || Z.leb 65 x && Z.leb x 90
  || Z.eqb x 43 || Z.eqb x 45 || Z.eqb x 46.

Definition word_token (w : list ascii) : option Token :=
  let s := text w in
  if String.eqb s "true" then Some (TLiteral (JBool true))
  else if String.eqb s "false" then Some (TLiteral (JBool false))
  else if String.eqb s "null" then Some (TLiteral JNull)
  else TNumber <$> json_number w.

Inductive LexMode : Type :=
| LIdle
| LWord (w : list ascii)
| LString (items : list StringItem)
| LEscape (items : list StringItem)
| LUnicode (items : list StringItem) (hex : list Z).

(** Between tokens: JSON white space is tab, line feed, carriage return
    and space. *)
Definition idle_step (c : ascii) (out : list Token) : option (LexMode * list Token) :=
  let x := code c in
  if Z.eqb x 9 || Z.eqb x 10 || Z.eqb x 13 || Z.eqb x 32 then Some (LIdle, out)
  else if Ascii.eqb c "{" then Some (LIdle, TLBrace :: out)
  else if Ascii.eqb c "}" then Some (LIdle, TRBrace :: out)
  else if Ascii.eqb c "[" then Some (LIdle, TLBracket :: out)
  else if Ascii.eqb c "]" then Some (LIdle, TRBracket :: out)
  else if Ascii.eqb c ":" then Some (LIdle, TColon :: out)
  else if Ascii.eqb c "," then Some (LIdle, TComma :: out)
  else if Z.eqb x 34 then Some (LString [], out)
  else if is_word_char c then Some (LWord [c], out)
  else None.

Definition escape_item (c : ascii) : option StringItem :=
  if Z.eqb (code c) 34 || Ascii.eqb c "\" || Ascii.eqb c "/" then Some (Raw c)
  else if Ascii.eqb c "b" then Some (Raw (char_of 8))
  else if Ascii.eqb c "f" then Some (Raw (char_of 12))
  else if Ascii.eqb c "n" then Some (Raw (char_of 10))
  else if Ascii.eqb c "r" then Some (Raw (char_of 13))
  else if Ascii.eqb c "t" then Some (Raw (char_of 9))
  else None.

(** The lexer; [out], [w], [items] and [hex] are kept last first. *)
Fixpoint lex (mode : LexMode) (out : list Token) (cs : list ascii)
    : option (list Token) :=
  match cs with
  | [] =>
      match mode with
      | LIdle => Some (rev out)
      | LWord w => t ← word_token (rev w); Some (rev (t :: out))
      | _ => None
      end
  | c :: rest =>
      match mode with
      | LIdle => '(mode', out') ← idle_step c out; lex mode' out' rest
      | LWord w =>
          if is_word_char c then lex (LWord (c :: w)) out rest
          else t ← word_token (rev w);
               '(mode', out') ← idle_step c (t :: out);
               lex mode' out' rest
      | LString items =>
          if Z.eqb (code c) 34
          then lex LIdle (TString (text (decode (rev items))) :: out) rest
          else if Ascii.eqb c "\" then lex (LEscape items) out rest
          else if Z.ltb (code c) 32 then None
          else lex (LString (Raw c :: items)) out rest
      | LEscape items =>
          if Ascii.eqb c "u" then lex (LUnicode items []) out rest
          else item ← escape_item c; lex (LString (item :: items)) out rest
      | LUnicode items hex =>
          h ← radix_digit 16 c;
          match hex with
          | [h2; h1; h0] =>
              lex (LString (Unit (((h0 * 16 + h1) * 16 + h2) * 16 + h) :: items)) out rest
          | _ => lex (LUnicode items (h :: hex)) out rest
          end
      end
  end.

(** An open array with its elements so far, or an open object with its
    properties so far and the key whose value is awaited; last first. *)
Inductive Frame : Type :=
| FArray (items : list JSValue)
| FObject (props : list (string * JSValue)) (key : option string).

Inductive Expect : Type :=
| XValue
| XValueOrClose
| XKeyOrClose
| XKey
| XColon
| XAfter
| XDone (v : JSValue).

(** A complete value goes to the innermost open container. *)
Definition supply (v : JSValue) (stack : list Frame) : option (Expect * list Frame) :=
  match stack with
  | [] => Some (XDone v, [])
  | FArray items :: outer => Some (XAfter, FArray (v :: items) :: outer)
  | FObject props (Some k) :: outer => Some (XAfter, FObject ((k, v) :: props) None :: outer)
  | FObject _ None :: _ => None
  end.

Definition close (closing : Token) (stack : list Frame) : option (Expect * list Frame) :=
  match closing, stack with
  | TRBracket, FArray items :: outer => supply (JArray (rev items)) outer
  | TRBrace, FObject props None :: outer => supply (JObject (rev props)) outer
  | _, _ => None
  end.

Definition parse_step (expect : Expect) (stack : list Frame) (t : Token)
    : option (Expect * list Frame) :=
  match expect, t with
  | (XValue | XValueOrClose), TString s => supply (JString s) stack
  | (XValue | XValueOrClose), TNumber n => supply (JNumber n) stack
  | (XValue | XValueOrClose), TLiteral v => supply v stack
  | (XValue | XValueOrClose), TLBracket => Some (XValueOrClose, FArray [] :: stack)
  | (XValue | XValueOrClose), TLBrace => Some (XKeyOrClose, FObject [] None :: stack)
  | XValueOrClose, TRBracket => close t stack
  | XKeyOrClose, TRBrace => close t stack
  | (XKeyOrClose | XKey), TString k =>
      match stack with
      | FObject props None :: outer => Some (XColon, FObject props (Some k) :: outer)
      | _ => None
      end
  | XColon, TColon => Some (XValue, stack)
  | XAfter, TComma =>
      match stack with
      | FArray _ :: _ => Some (XValue, stack)
      | FObject _ None :: _ => Some (XKey, stack)
      | _ => None
      end
  | XAfter, (TRBracket | TRBrace) => close t stack
  | _, _ => None
  end.

Fixpoint parse_tokens (expect : Expect) (stack : list Frame) (ts : list Token)
    : option JSValue :=
  match ts with
  | [] => match expect with
          | XDone v => Some v
          | _ => None
          end
  | t :: rest =>
      '(expect', stack') ← parse_step expect stack t;
      parse_tokens expect' stack' rest
  end.

(** [JSON.parse(text)] without reviver: a SyntaxError unless the text is
    one JSON value. *)
Definition parse (s : string) : Result JSValue :=
  match lex LIdle [] (chars s) ≫= parse_tokens XValue [] with
  | Some v => Ok v
  | None => Throw SyntaxError
  end.

End Ecma.

#[global] Instance ecma : Platform := {|
  JSON_parse := Ecma.parse;
  JSON_stringify := Ecma.stringify;
  NumberToString := Ecma.number_to_string;
  StringToNumber := Ecma.string_to_number
|}.

(** ** The application: both providers mounted *)

Record App : Type := mkApp {
  world : World;
  gateway : Gateway
}.

Inductive AppOp : Type :=
| AuthCall (op : AuthOp)
| GatewayEv (ev : GatewayEvent).

Definition mount {P : Platform} (storage : gmap string string) (routes : list string)
    : Result App :=
  w ← hydrate storage routes;
  Ok {| world := w; gateway := FetchProvider None |}.

Definition run_app {P : Platform} (op : AppOp) (a : App) : Result unit * App :=
  match op with
  | AuthCall o =>
      let '(r, w) := run_auth o (world a) in
      (r, {| world := w; gateway := gateway a |})
  | GatewayEv ev =>
      (Ok tt, {| world := world a; gateway := gateway_step (gateway a) ev |})
  end.

(** ** The specification's reading of the operations *)

(** A field is absent when it holds [null] or [undefined]. *)
Definition absent (v : JSValue) : bool :=
  match v with
  | JUndefined | JNull => true
  | _ => false
  end.

(** [isAuthenticated] in the specification's words: false when the token
    or the expiry is absent, otherwise whether the time in seconds is
    strictly below the expiry. *)
Definition isAuthenticated_spec {P : Platform} (st : AuthState) (now : Z) : Result bool :=
  if absent (token st) || absent (expiresAt st)
  then Ok false
  else y ← ToNumber (expiresAt st);
       Ok (number_ltb (seconds now) y).

(** The token a response delivers to [getCsrfToken], if any. *)
Definition fetched_token (response : option JSValue) : option JSValue :=
  match response with
  | Some data =>
      match Get data "csrfToken" with
      | Ok csrfToken => Some csrfToken
      | Throw _ => None
      end
  | None => None
  end.

(** What holds of a mounted gateway at every moment: the client of the
    mounting render exists, the handshake request was issued once if the
    effect has run and not at all before, and no client but the first,
    and not the first before the handshake is fulfilled, has the header. *)
Definition gateway_inv (g : Gateway) : Prop :=
  exists first later,
    instances g = first :: later
    /\ Forall (fun defaults => csrf_header defaults = None) later
    /\ (handshake g <> Fulfilled -> csrf_header first = None)
    /\ length (filter is_handshake (sent g))
       = match handshake g with
         | Scheduled => 0%nat
         | _ => 1%nat
         end.

(** The state of the first render when the stored identity reads as
    [identity]. *)
Definition hydrated (storage : gmap string string) (identity : JSValue) : AuthState :=
  {| token := JNull; expiresAt := getItem storage "expiresAt"; userInfo := identity |}.

(** The text [setAuthInfo] stores for an identity. *)
Definition stored_identity {P : Platform} (identity : JSValue) : string :=
  default "undefined" (JSON_stringify identity).

(** The world after the first write of [setAuthInfo], and after the
    whole call. *)
Definition identity_written {P : Platform} (u : JSValue) (w : World) : World :=
  {| localStorage := <["userInfo" := stored_identity u]> (localStorage w);
     authState := authState w;
     history := history w |}.

Definition session_installed {P : Platform} (t u e : JSValue) (text : string) (w : World)
    : World :=
  {| localStorage :=
       <["expiresAt" := text]> (<["userInfo" := stored_identity u]> (localStorage w));
     authState := {| token := t; expiresAt := e; userInfo := u |};
     history := history w |}.

(** The value of a finite number, and whether [x] is strictly below [y]
    as numbers. *)
Definition number_value (x : JSNumber) : Q :=
  match x with
  | Dec m e => dec_value m e
  | _ => 0%Q
  end.

Definition number_lt (x y : JSNumber) : Prop :=
  match x, y with
  | Dec m1 e1, Dec m2 e2 => (dec_value m1 e1 < dec_value m2 e2)%Q
  | Dec _ _, Infinity false => True
  | Infinity true, Dec _ _ => True
  | Infinity true, Infinity false => True
  | _, _ => False
  end.

(** A finite number in units of [10^-65]: a whole number for every
    quotient [seconds] gives. *)
Definition scaled (x : JSNumber) : Z :=
  match x with
  | Dec m e => m * 10 ^ (e + 65)
  | _ => 0
  end.

(** A value without a string form: an object with an own [toString]
    property, or an array that holds such a value. *)
Fixpoint unprintable (v : JSValue) : bool :=
  match v with
  | JObject props =>
      match lookup_prop "toString" props with
      | Some _ => true
      | None => false
      end
  | JArray items => existsb unprintable items
  | _ => false
  end.

(** The one call that pushes a route. *)
Definition navigates (op : AppOp) : bool :=
  match op with
  | AuthCall OpLogout => true
  | _ => false
  end.

(** The argument of [setAuthState] for a triple. *)
Definition session (identity sessionToken expiry : JSValue) : JSValue :=
  JObject [("token", sessionToken); ("userInfo", identity); ("expiresAt", expiry)].

(** Two calls that differ at most in the token they pass. *)
Definition token_variant (op1 op2 : AuthOp) : Prop :=
  match op1, op2 with
  | OpSetAuthState a1, OpSetAuthState a2 =>
      Get a1 "userInfo" = Get a2 "userInfo"
      /\ Get a1 "expiresAt" = Get a2 "expiresAt"
  | _, _ => op1 = op2
  end.

(** The client the provider hands to its consumers: the [authAxios] of the
    latest render, the value of the context. *)
Definition exposed_client (g : Gateway) : option (gmap string JSValue) :=
  last (instances g).

Definition is_render (ev : GatewayEvent) : bool :=
  match ev with
  | EvRender => true
  | _ => false
  end.

Definition renders (evs : list GatewayEvent) : nat :=
  length (filter is_render evs).

(** * Properties *)

(** ** Numbers *)

Lemma pow10_pos (n : Z) : 0 <= n -> 0 < 10 ^ n.
Proof. intros Hn. apply Z.pow_pos_nonneg; lia. Qed.

(** Comparing at the smaller exponent is comparing at any exponent below
    both. *)
Lemma dec_ltb_scale (m1 e1 m2 e2 e0 : Z) :
  e0 <= e1 -> e0 <= e2 ->
  dec_ltb m1 e1 m2 e2 = true <-> m1 * 10 ^ (e1 - e0) < m2 * 10 ^ (e2 - e0).
Proof.
  intros H1 H2. unfold dec_ltb. rewrite Z.ltb_lt.
  set (e := Z.min e1 e2).
  assert (He : e0 <= e <= e1 /\ e <= e2) by (subst e; lia).
  replace (e1 - e0) with ((e1 - e) + (e - e0)) by lia.
  replace (e2 - e0) with ((e2 - e) + (e - e0)) by lia.
  rewrite !Z.pow_add_r by lia.
  pose proof (pow10_pos (e - e0) ltac:(lia)) as Hp.
  rewrite !Z.mul_assoc.
  split; intros H.
  - apply Z.mul_lt_mono_pos_r; assumption.
  - apply Z.mul_lt_mono_pos_r in H; assumption.
Qed.

(** The value of a decimal over the denominator [10^d], for [d] large
    enough. *)
Lemma dec_value_scaled (m e d : Z) :
  0 <= d -> 0 <= e + d ->
  (dec_value m e == Qmake (m * 10 ^ (e + d)) (Z.to_pos (10 ^ d)))%Q.
Proof.
  intros Hd Hed. unfold dec_value, Qeq, inject_Z. cbn [Qnum Qden].
  pose proof (pow10_pos d Hd) as Hpd.
  destruct (Z.leb_spec 0 e) as [He | He]; cbn [Qnum Qden].
  - rewrite Z2Pos.id by assumption. rewrite Z.pow_add_r by lia. lia.
  - pose proof (pow10_pos (- e) ltac:(lia)) as Hpe.
    rewrite !Z2Pos.id by assumption.
    replace d with ((e + d) + - e) at 1 by lia.
    rewrite Z.pow_add_r by lia. lia.
Qed.

Lemma dec_ltb_Qlt (m1 e1 m2 e2 : Z) :
  dec_ltb m1 e1 m2 e2 = true <-> (dec_value m1 e1 < dec_value m2 e2)%Q.
Proof.
  set (d := Z.max 0 (Z.max (- e1) (- e2))).
  rewrite (dec_value_scaled m1 e1 d), (dec_value_scaled m2 e2 d) by (subst d; lia).
  rewrite (dec_ltb_scale m1 e1 m2 e2 (- d)) by (subst d; lia).
  unfold Qlt. cbn [Qnum Qden].
  pose proof (pow10_pos d ltac:(subst d; lia)) as Hp.
  rewrite Z2Pos.id by assumption.
  replace (e1 - - d) with (e1 + d) by lia.
  replace (e2 - - d) with (e2 + d) by lia.
  split; intros H.
  - apply Z.mul_lt_mono_pos_r; assumption.
  - apply Z.mul_lt_mono_pos_r in H; assumption.
Qed.

Lemma pow2_pos (n : Z) : 0 <= n -> 0 < 2 ^ n.
Proof. intros Hn. apply Z.pow_pos_nonneg; lia. Qed.

Lemma pow5_pos (n : Z) : 0 <= n -> 0 < 5 ^ n.
Proof. intros Hn. apply Z.pow_pos_nonneg; lia. Qed.

Lemma pow10_split (n : Z) : 0 <= n -> 10 ^ n = 2 ^ n * 5 ^ n.
Proof. intros Hn. change 10 with (2 * 5). apply Z.pow_mul_l. Qed.

Lemma number_ltb_lt (x y : JSNumber) : number_ltb x y = true <-> number_lt x y.
Proof.
  destruct x as [| [|] | m1 e1], y as [| [|] | m2 e2]; cbn;
    try (split; [discriminate | contradiction]);
    try (split; [constructor | reflexivity]).
  apply dec_ltb_Qlt.
Qed.

(** *** Rounding to the nearest integer *)

Lemma rne_bounds (a b : Z) : 0 < b -> a / b <= rne a b <= a / b + 1.
Proof.
  intros Hb. unfold rne.
  destruct (Z.ltb_spec (2 * (a mod b)) b); [lia |].
  destruct (Z.ltb_spec b (2 * (a mod b))); [lia |].
  destruct (Z.even (a / b)); lia.
Qed.

Lemma rne_error (a b : Z) : 0 < b -> 2 * a - b <= 2 * (b * rne a b) <= 2 * a + b.
Proof.
  intros Hb. unfold rne.
  pose proof (Z.div_mod a b ltac:(lia)) as Hdm.
  pose proof (Z.mod_pos_bound a b Hb) as Hr.
  set (q := a / b) in *. set (r := a mod b) in *.
  destruct (Z.ltb_spec (2 * r) b); [lia |].
  destruct (Z.ltb_spec b (2 * r)); [lia |].
  destruct (Z.even q); lia.
Qed.

Lemma rne_mono (a a' b : Z) : 0 < b -> a <= a' -> rne a b <= rne a' b.
Proof.
  intros Hb Hle.
  pose proof (Z.div_le_mono a a' b Hb Hle) as Hq.
  destruct (Z.eq_dec (a / b) (a' / b)) as [Heq | Hne].
  - pose proof (Z.div_mod a b ltac:(lia)) as Hdm.
    pose proof (Z.div_mod a' b ltac:(lia)) as Hdm'.
    unfold rne. rewrite <- Heq in *.
    set (q := a / b) in *. set (r := a mod b) in *. set (r' := a' mod b) in *.
    destruct (Z.ltb_spec (2 * r) b); destruct (Z.ltb_spec (2 * r') b);
      destruct (Z.ltb_spec b (2 * r)); destruct (Z.ltb_spec b (2 * r'));
      destruct (Z.even q); lia.
  - pose proof (rne_bounds a b Hb). pose proof (rne_bounds a' b Hb). lia.
Qed.

(** *** The binary exponent of a quotient *)

Lemma pow2_shift (x y s : Z) : 0 <= s -> (x <= y <-> x * 2 ^ s <= y * 2 ^ s).
Proof.
  intros Hs. pose proof (pow2_pos s Hs). split; intros H'.
  - apply Z.mul_le_mono_nonneg_r; lia.
  - apply Z.mul_le_mono_pos_r in H'; lia.
Qed.

Lemma pow2_shift_lt (x y s : Z) : 0 <= s -> (x < y <-> x * 2 ^ s < y * 2 ^ s).
Proof.
  intros Hs. pose proof (pow2_pos s Hs). split; intros H'.
  - apply Z.mul_lt_mono_pos_r; lia.
  - apply Z.mul_lt_mono_pos_r in H'; lia.
Qed.

Lemma floor_log2_spec (n d t : Z) :
  0 < n -> 0 < d -> 0 <= t -> 0 <= floor_log2 n d + t ->
  d * 2 ^ (floor_log2 n d + t) <= n * 2 ^ t < d * 2 ^ (floor_log2 n d + t + 1).
Proof.
  intros Hn Hd Ht. unfold floor_log2, shl.
  destruct (Z.log2_spec n Hn) as [Hn1 Hn2].
  destruct (Z.log2_spec d Hd) as [Hd1 Hd2].
  pose proof (Z.log2_nonneg n) as Ha. pose proof (Z.log2_nonneg d) as Hb.
  set (a := Z.log2 n) in *. set (b := Z.log2 d) in *.
  set (k := a - b). set (t0 := Z.max 0 (- k)).
  replace (Z.max 0 k) with (k + t0) by (subst t0; lia).
  destruct (Z.leb_spec (d * 2 ^ (k + t0)) (n * 2 ^ t0)) as [Htest | Htest]; intros Hkt.
  - split.
    + apply (pow2_shift _ _ (t - t0)) in Htest; [| subst t0; lia].
      rewrite <- !Z.mul_assoc, <- !Z.pow_add_r in Htest by (subst t0; lia).
      replace (k + t0 + (t - t0)) with (k + t) in Htest by lia.
      replace (t0 + (t - t0)) with t in Htest by lia. exact Htest.
    + apply Z.lt_le_trans with (2 ^ Z.succ a * 2 ^ t).
      * apply Z.mul_lt_mono_pos_r; [apply pow2_pos; lia | exact Hn2].
      * rewrite <- Z.pow_add_r by lia.
        replace (Z.succ a + t) with (b + (k + t + 1)) by (subst k; lia).
        rewrite (Z.pow_add_r 2 b (k + t + 1)) by lia.
        apply Z.mul_le_mono_nonneg_r; [apply Z.lt_le_incl, pow2_pos; lia | exact Hd1].
  - split.
    + apply Z.le_trans with (2 ^ a * 2 ^ t).
      * rewrite <- Z.pow_add_r by lia.
        replace (a + t) with (Z.succ b + (k - 1 + t)) by (subst k; lia).
        rewrite (Z.pow_add_r 2 (Z.succ b) (k - 1 + t)) by lia.
        apply Z.mul_le_mono_nonneg_r; [apply Z.lt_le_incl, pow2_pos; lia | lia].
      * apply Z.mul_le_mono_nonneg_r; [apply Z.lt_le_incl, pow2_pos; lia | exact Hn1].
    + apply (pow2_shift_lt _ _ (t - t0)) in Htest; [| subst t0; lia].
      rewrite <- !Z.mul_assoc, <- !Z.pow_add_r in Htest by (subst t0; lia).
      replace (k + t0 + (t - t0)) with (k - 1 + t + 1) in Htest by lia.
      replace (t0 + (t - t0)) with t in Htest by lia. exact Htest.
Qed.

Lemma floor_log2_mono (n n' d : Z) :
  0 < n -> n <= n' -> 0 < d -> floor_log2 n d <= floor_log2 n' d.
Proof.
  intros Hn Hle Hd.
  destruct (Z.le_gt_cases (floor_log2 n d) (floor_log2 n' d)) as [H | H]; [exact H |].
  exfalso.
  set (k := floor_log2 n d) in *. set (k' := floor_log2 n' d) in *.
  set (t := Z.max 0 (- k')).
  destruct (floor_log2_spec n d t Hn Hd ltac:(subst t; lia) ltac:(subst t k; lia)) as [Hlo _].
  destruct (floor_log2_spec n' d t ltac:(lia) Hd ltac:(subst t; lia) ltac:(subst t k'; lia))
    as [_ Hhi].
  fold k in Hlo. fold k' in Hhi.
  assert (Hpow : 2 ^ (k' + t + 1) <= 2 ^ (k + t))
    by (apply Z.pow_le_mono_r; subst t; lia).
  assert (Hmul : d * 2 ^ (k' + t + 1) <= d * 2 ^ (k + t))
    by (apply Z.mul_le_mono_nonneg_l; lia).
  assert (Hcmp : n' * 2 ^ t < n * 2 ^ t) by lia.
  apply pow2_shift_lt in Hcmp; [lia | subst t; lia].
Qed.

(** *** The clock reading in seconds *)

Lemma seconds_zero : seconds 0 = Dec 0 0.
Proof. reflexivity. Qed.

Lemma seconds_beyond (n : Z) : max_time < Z.abs n -> seconds n = Dec n (-3).
Proof.
  intros H. unfold seconds.
  destruct (Z.leb_spec (Z.abs n) max_time); [lia | reflexivity].
Qed.

(** A time value after the epoch: 53 significant bits [M] at the binary
    exponent [-p], with [M] the nearest integer to [n * 2^p / 1000]. *)
Lemma seconds_pos (n : Z) :
  0 < n <= max_time ->
  let p := 52 - floor_log2 n 1000 in
  let M := rne (n * 2 ^ p) 1000 in
  10 <= p <= 62
  /\ 2 ^ 52 <= M <= 2 ^ 53
  /\ seconds n = Dec (M * 5 ^ p) (- p).
Proof.
  intros [Hn Hmax] p M. subst M p. unfold max_time in *.
  set (k := floor_log2 n 1000).
  assert (Hk : -10 <= k <= 42).
  { split.
    - destruct (Z.le_gt_cases (-10) k) as [H | H]; [exact H | exfalso].
      destruct (floor_log2_spec n 1000 (- k) Hn ltac:(lia) ltac:(lia) ltac:(fold k; lia))
        as [_ Hhi].
      fold k in Hhi. replace (k + - k + 1) with 1 in Hhi by lia.
      assert (2 ^ 11 <= 2 ^ (- k)) by (apply Z.pow_le_mono_r; lia).
      change (2 ^ 11) with 2048 in *. change (2 ^ 1) with 2 in Hhi. nia.
    - destruct (Z.le_gt_cases k 42) as [H | H]; [exact H | exfalso].
      destruct (floor_log2_spec n 1000 0 Hn ltac:(lia) ltac:(lia) ltac:(fold k; lia))
        as [Hlo _].
      fold k in Hlo. rewrite Z.add_0_r in Hlo.
      assert (2 ^ 43 <= 2 ^ k) by (apply Z.pow_le_mono_r; lia).
      change (2 ^ 43) with 8796093022208 in *. change (2 ^ 0) with 1 in Hlo. lia. }
  split; [lia |].
  destruct (floor_log2_spec n 1000 (52 - k) Hn ltac:(lia) ltac:(lia) ltac:(fold k; lia))
    as [Hlo Hhi].
  fold k in Hlo, Hhi.
  replace (k + (52 - k)) with 52 in Hlo by lia.
  replace (k + (52 - k) + 1) with 53 in Hhi by lia.
  pose proof (rne_bounds (n * 2 ^ (52 - k)) 1000 ltac:(lia)) as Hb.
  assert (Hq1 : 2 ^ 52 <= n * 2 ^ (52 - k) / 1000)
    by (apply Z.div_le_lower_bound; lia).
  assert (Hq2 : n * 2 ^ (52 - k) / 1000 < 2 ^ 53)
    by (apply Z.div_lt_upper_bound; lia).
  split; [lia |].
  unfold seconds, binary64, binary64_pos, max_time. fold k.
  destruct (Z.leb_spec (Z.abs n) 8640000000000000) as [_ | Habs]; [| lia].
  destruct (Z.eqb_spec n 0) as [Hz | _]; [lia |].
  destruct (Z.ltb_spec n 0) as [Hneg | _]; [lia |].
  rewrite (Z.max_l (k - 52) (-1074)) by lia.
  unfold shl, dyadic.
  rewrite (Z.max_r 0 (- (k - 52))) by lia.
  rewrite (Z.max_l 0 (k - 52)) by lia.
  destruct (Z.leb_spec 0 (k - 52)) as [Hq | _]; [lia |].
  cbn [andb]. change (2 ^ 0) with 1. rewrite Z.mul_1_r.
  replace (- (k - 52)) with (52 - k) by lia.
  replace (k - 52) with (- (52 - k)) by lia.
  reflexivity.
Qed.

Lemma seconds_neg (n : Z) : n < 0 -> seconds n = negate (seconds (- n)).
Proof.
  intros Hn. unfold seconds. rewrite Z.abs_opp.
  destruct (Z.leb_spec (Z.abs n) max_time).
  - unfold binary64.
    destruct (Z.eqb_spec n 0); [lia |].
    destruct (Z.ltb_spec n 0); [| lia].
    destruct (Z.eqb_spec (- n) 0); [lia |].
    destruct (Z.ltb_spec (- n) 0); [lia |].
    reflexivity.
  - cbn. rewrite Z.opp_involutive. reflexivity.
Qed.

Lemma scaled_negate (x : JSNumber) : scaled (negate x) = - scaled x.
Proof. destruct x as [| [|] | m e]; cbn; lia. Qed.

Lemma scaled_seconds_pos (n : Z) :
  0 < n <= max_time ->
  let p := 52 - floor_log2 n 1000 in
  scaled (seconds n) = rne (n * 2 ^ p) 1000 * 2 ^ (65 - p) * 5 ^ 65.
Proof.
  intros Hn p. destruct (seconds_pos n Hn) as (Hp & _ & ->). fold p in Hp |- *.
  cbn [scaled]. replace (- p + 65) with (65 - p) by lia.
  rewrite (pow10_split (65 - p)) by lia.
  assert (H5 : 5 ^ 65 = 5 ^ p * 5 ^ (65 - p)).
  { rewrite <- Z.pow_add_r by lia. f_equal. lia. }
  rewrite H5. ring.
Qed.

Lemma scaled_seconds_max : scaled (seconds max_time) = max_time * 10 ^ 62.
Proof. vm_compute. reflexivity. Qed.

Lemma scaled_seconds_pos_mono (n n' : Z) :
  0 < n -> n <= n' -> n' <= max_time -> scaled (seconds n) <= scaled (seconds n').
Proof.
  intros Hn Hle Hmax.
  rewrite (scaled_seconds_pos n) by lia. rewrite (scaled_seconds_pos n') by lia.
  destruct (seconds_pos n ltac:(lia)) as (Hp & HM & _).
  destruct (seconds_pos n' ltac:(lia)) as (Hp' & HM' & _).
  pose proof (floor_log2_mono n n' 1000 Hn Hle ltac:(lia)) as Hk.
  set (p := 52 - floor_log2 n 1000) in *. set (p' := 52 - floor_log2 n' 1000) in *.
  set (M := rne (n * 2 ^ p) 1000) in *. set (M' := rne (n' * 2 ^ p') 1000) in *.
  apply Z.mul_le_mono_nonneg_r; [apply Z.lt_le_incl, pow5_pos; lia |].
  replace (65 - p') with ((65 - p) + (p - p')) by lia.
  rewrite (Z.pow_add_r 2 (65 - p) (p - p')) by lia.
  pose proof (pow2_pos (65 - p) ltac:(lia)) as Hs.
  assert (Hcore : M <= M' * 2 ^ (p - p')).
  { destruct (Z.eq_dec p p') as [Heq | Hne].
    - replace (p - p') with 0 by lia. change (2 ^ 0) with 1. rewrite Z.mul_1_r.
      subst M M'. rewrite <- Heq. apply rne_mono; [lia |].
      apply Z.mul_le_mono_nonneg_r; [apply Z.lt_le_incl, pow2_pos; lia | exact Hle].
    - assert (2 ^ 1 <= 2 ^ (p - p')) by (apply Z.pow_le_mono_r; lia).
      change (2 ^ 1) with 2 in *. change (2 ^ 53) with (2 ^ 52 * 2) in HM. nia. }
  nia.
Qed.

Lemma scaled_seconds_pos_gt (n : Z) : 0 < n -> 0 < scaled (seconds n).
Proof.
  intros Hn. destruct (Z.le_gt_cases n max_time) as [Hin | Hout].
  - rewrite (scaled_seconds_pos n) by lia.
    destruct (seconds_pos n ltac:(lia)) as (Hp & HM & _).
    pose proof (pow2_pos 52 ltac:(lia)).
    apply Z.mul_pos_pos; [apply Z.mul_pos_pos |]; [lia | apply pow2_pos; lia | apply pow5_pos; lia].
  - rewrite seconds_beyond by lia. cbn. lia.
Qed.

(** The quotient never decreases with the clock reading. *)
Lemma scaled_seconds_mono (a b : Z) : a <= b -> scaled (seconds a) <= scaled (seconds b).
Proof.
  assert (Hpos : forall a b, 0 < a -> a <= b -> scaled (seconds a) <= scaled (seconds b)).
  { intros x y Hx Hle.
    destruct (Z.le_gt_cases y max_time) as [Hy | Hy].
    - apply scaled_seconds_pos_mono; lia.
    - rewrite (seconds_beyond y) by lia. cbn [scaled].
      destruct (Z.le_gt_cases x max_time) as [Hx' | Hx'].
      + apply Z.le_trans with (scaled (seconds max_time)).
        * apply scaled_seconds_pos_mono; [lia | lia | lia].
        * rewrite scaled_seconds_max. change (-3 + 65) with 62.
          apply Z.mul_le_mono_nonneg_r; lia.
      + rewrite (seconds_beyond x) by lia. cbn [scaled].
        apply Z.mul_le_mono_nonneg_r; lia. }
  intros Hle.
  destruct (Z.lt_trichotomy a 0) as [Ha | [-> | Ha]].
  - rewrite (seconds_neg a Ha), scaled_negate.
    destruct (Z.lt_trichotomy b 0) as [Hb | [-> | Hb]].
    + rewrite (seconds_neg b Hb), scaled_negate.
      pose proof (Hpos (- b) (- a) ltac:(lia) ltac:(lia)). lia.
    + rewrite seconds_zero. pose proof (scaled_seconds_pos_gt (- a) ltac:(lia)). cbn. lia.
    + pose proof (scaled_seconds_pos_gt (- a) ltac:(lia)).
      pose proof (scaled_seconds_pos_gt b Hb). lia.
  - destruct (Z.lt_trichotomy b 0) as [Hb | [-> | Hb]]; [lia | lia |].
    rewrite seconds_zero. pose proof (scaled_seconds_pos_gt b Hb). cbn. lia.
  - apply Hpos; assumption.
Qed.

(** Every quotient is a finite number, of exponent at least [-65]. *)
Lemma seconds_finite (n : Z) : exists m e, seconds n = Dec m e /\ -65 <= e.
Proof.
  assert (Hpos : forall n, 0 < n -> exists m e, seconds n = Dec m e /\ -65 <= e).
  { intros x Hx. destruct (Z.le_gt_cases x max_time) as [Hin | Hout].
    - destruct (seconds_pos x ltac:(lia)) as (Hp & _ & ->). eexists _, _. split; [reflexivity | lia].
    - rewrite seconds_beyond by lia. eexists _, _. split; [reflexivity | lia]. }
  destruct (Z.lt_trichotomy n 0) as [Hn | [-> | Hn]].
  - rewrite (seconds_neg n Hn). destruct (Hpos (- n) ltac:(lia)) as (m & e & -> & He).
    cbn. eexists _, _. split; [reflexivity | exact He].
  - rewrite seconds_zero. eexists _, _. split; [reflexivity | lia].
  - apply Hpos, Hn.
Qed.

Lemma number_ltb_scaled (m1 e1 m2 e2 : Z) (y : JSNumber) :
  -65 <= e1 -> -65 <= e2 ->
  scaled (Dec m1 e1) <= scaled (Dec m2 e2) ->
  number_ltb (Dec m2 e2) y = true -> number_ltb (Dec m1 e1) y = true.
Proof.
  intros H1 H2 Hle. destruct y as [| [|] | m e]; cbn [number_ltb]; try (intros H; exact H).
  cbn [scaled] in Hle.
  set (e0 := Z.min (-65) e).
  rewrite (dec_ltb_scale m2 e2 m e e0), (dec_ltb_scale m1 e1 m e e0) by (subst e0; lia).
  intros Hlt. eapply Z.le_lt_trans; [| exact Hlt].
  replace (e1 - e0) with ((e1 + 65) + (-65 - e0)) by lia.
  replace (e2 - e0) with ((e2 + 65) + (-65 - e0)) by lia.
  rewrite (Z.pow_add_r 10 (e1 + 65) (-65 - e0)) by (subst e0; lia).
  rewrite (Z.pow_add_r 10 (e2 + 65) (-65 - e0)) by (subst e0; lia).
  rewrite !Z.mul_assoc.
  apply Z.mul_le_mono_nonneg_r; [apply Z.lt_le_incl, pow10_pos; subst e0; lia | exact Hle].
Qed.

Lemma number_ltb_seconds_mono (a b : Z) (y : JSNumber) :
  a <= b -> number_ltb (seconds b) y = true -> number_ltb (seconds a) y = true.
Proof.
  intros Hle. pose proof (scaled_seconds_mono a b Hle) as Hs.
  destruct (seconds_finite a) as (m1 & e1 & Ha & He1).
  destruct (seconds_finite b) as (m2 & e2 & Hb & He2).
  rewrite Ha, Hb in *. apply number_ltb_scaled; assumption.
Qed.

(** Against a whole number of seconds the binary64 quotient decides as the
    exact one does. *)
Lemma number_ltb_seconds_whole (now e : Z) :
  0 <= now -> (number_ltb (seconds now) (Dec e 0) = true <-> now < 1000 * e).
Proof.
  intros Hnow. cbn [number_ltb].
  destruct (Z.eq_dec now 0) as [-> | Hnz].
  - rewrite seconds_zero. cbn [number_ltb].
    rewrite (dec_ltb_scale 0 0 e 0 0) by lia. change (10 ^ (0 - 0)) with 1. lia.
  - destruct (Z.le_gt_cases now max_time) as [Hin | Hout].
    + destruct (seconds_pos now ltac:(lia)) as (Hp & HM & ->).
      set (p := 52 - floor_log2 now 1000) in *. set (M := rne (now * 2 ^ p) 1000) in *.
      cbn [number_ltb].
      rewrite (dec_ltb_scale (M * 5 ^ p) (- p) e 0 (- p)) by lia.
      replace (- p - - p) with 0 by lia. replace (0 - - p) with p by lia.
      change (10 ^ 0) with 1. rewrite Z.mul_1_r, (pow10_split p) by lia.
      pose proof (pow5_pos p ltac:(lia)) as H5.
      pose proof (rne_bounds (now * 2 ^ p) 1000 ltac:(lia)) as Hb. fold M in Hb.
      assert (H2 : 2 ^ 10 <= 2 ^ p) by (apply Z.pow_le_mono_r; lia).
      change (2 ^ 10) with 1024 in H2.
      pose proof (pow2_pos p ltac:(lia)) as H2p.
      set (S := 2 ^ p) in *.
      assert (Hiff : M < e * S <-> now < 1000 * e).
      { split; intros H.
        - destruct (Z.lt_ge_cases now (1000 * e)) as [Hlt | Hge]; [exact Hlt | exfalso].
          assert (e * S <= now * S / 1000).
          { apply Z.div_le_lower_bound; [lia |]. nia. }
          lia.
        - assert (now * S / 1000 < e * S - 1).
          { apply Z.div_lt_upper_bound; [lia |]. nia. }
          lia. }
      rewrite <- Hiff. split; intros H; nia.
    + rewrite seconds_beyond by lia. cbn [number_ltb].
      rewrite (dec_ltb_scale now (-3) e 0 (-3)) by lia.
      change (10 ^ (-3 - -3)) with 1. change (10 ^ (0 - -3)) with 1000. lia.
Qed.

(** The quotient of a time value is within [2^-11] of the exact one. *)
Lemma seconds_accuracy_pos (n : Z) :
  0 < n <= max_time ->
  (Qabs (number_value (seconds n) - inject_Z n / inject_Z 1000) <= 1 # 2048)%Q.
Proof.
  intros Hn. destruct (seconds_pos n Hn) as (Hp & HM & ->).
  set (p := 52 - floor_log2 n 1000) in *. set (M := rne (n * 2 ^ p) 1000) in *.
  pose proof (rne_error (n * 2 ^ p) 1000 ltac:(lia)) as Herr. fold M in Herr.
  assert (H2 : 2 ^ 10 <= 2 ^ p) by (apply Z.pow_le_mono_r; lia).
  change (2 ^ 10) with 1024 in H2.
  pose proof (pow5_pos p ltac:(lia)) as H5.
  pose proof (pow10_pos p ltac:(lia)) as H10.
  cbn [number_value]. unfold dec_value.
  destruct (Z.leb_spec 0 (- p)) as [Hneg | _]; [lia |].
  rewrite Z.opp_involutive.
  apply Qabs_Qle_condition.
  unfold Qle, Qminus, Qplus, Qopp, Qdiv, Qmult, Qinv, inject_Z. cbn [Qnum Qden].
  rewrite !Pos2Z.inj_mul, !Z2Pos.id by lia.
  rewrite (pow10_split p) in * by lia.
  set (S := 2 ^ p) in *. set (F := 5 ^ p) in *.
  split; nia.
Qed.

Lemma seconds_accuracy (n : Z) :
  Z.abs n <= max_time ->
  (Qabs (number_value (seconds n) - inject_Z n / inject_Z 1000) <= 1 # 2048)%Q.
Proof.
  intros Hn. destruct (Z.lt_trichotomy n 0) as [Hneg | [-> | Hpos]].
  - rewrite (seconds_neg n Hneg).
    destruct (seconds_pos (- n) ltac:(lia)) as (Hp & HM & ->).
    set (p := 52 - floor_log2 (- n) 1000) in *. set (M := rne (- n * 2 ^ p) 1000) in *.
    pose proof (rne_error (- n * 2 ^ p) 1000 ltac:(lia)) as Herr. fold M in Herr.
    assert (H2 : 2 ^ 10 <= 2 ^ p) by (apply Z.pow_le_mono_r; lia).
    change (2 ^ 10) with 1024 in H2.
    pose proof (pow5_pos p ltac:(lia)) as H5.
    pose proof (pow10_pos p ltac:(lia)) as H10.
    cbn [negate number_value]. unfold dec_value.
    destruct (Z.leb_spec 0 (- p)) as [Hq | _]; [lia |].
    rewrite Z.opp_involutive.
    apply Qabs_Qle_condition.
    unfold Qle, Qminus, Qplus, Qopp, Qdiv, Qmult, Qinv, inject_Z. cbn [Qnum Qden].
    rewrite !Pos2Z.inj_mul, !Z2Pos.id by lia.
    rewrite (pow10_split p) in * by lia.
    set (S := 2 ^ p) in *. set (F := 5 ^ p) in *.
    split; nia.
  - rewrite seconds_zero. apply Qabs_Qle_condition.
    unfold Qle, Qminus, Qplus, Qopp, Qdiv, Qmult, Qinv, inject_Z. cbn. lia.
  - apply seconds_accuracy_pos. lia.
Qed.

(** ** Conversions *)

Section ConversionFacts.
Context {P : Platform}.

(** ToString raises exactly on the values without a string form, and then
    a TypeError. *)
Lemma ToString_cases (v : JSValue) :
  if unprintable v then ToString v = Throw TypeError else returns (ToString v).
Proof.
  revert v. fix IH 1.
  intros [| | [|] | n | s | items | props]; cbn [unprintable ToString];
    try (eexists; reflexivity).
  - set (element := fun x : JSValue => match x with
                                       | JUndefined | JNull => Ok ""
                                       | _ => ToString x
                                       end).
    assert (Helement : forall x, if unprintable x then element x = Throw TypeError
                                 else returns (element x)).
    { intros x. pose proof (IH x) as Hx. subst element.
      destruct x; cbn [unprintable] in *; try exact Hx; eexists; reflexivity. }
    assert (Hall : if existsb unprintable items
                   then traverse element items = Throw TypeError
                   else returns (traverse element items)).
    { clear IH. induction items as [| x rest IHrest]; cbn [existsb traverse].
      - eexists. reflexivity.
      - specialize (Helement x). destruct (unprintable x); cbn [orb].
        + rewrite Helement. reflexivity.
        + destruct Helement as [sx ->]. cbn.
          destruct (existsb unprintable rest).
          * rewrite IHrest. reflexivity.
          * destruct IHrest as [ss ->]. eexists. reflexivity. }
    destruct (existsb unprintable items).
    + rewrite Hall. reflexivity.
    + destruct Hall as [parts ->]. eexists. reflexivity.
  - destruct (lookup_prop "toString" props); [reflexivity | eexists; reflexivity].
Qed.

Lemma ToString_raises (v : JSValue) (e : Exception) :
  ToString v = Throw e <-> e = TypeError /\ unprintable v = true.
Proof.
  pose proof (ToString_cases v) as H. destruct (unprintable v).
  - rewrite H. split; [intros [= <-]; split; reflexivity | intros [-> _]; reflexivity].
  - destruct H as [s ->]. split; [discriminate | intros [_ [=]]].
Qed.

Lemma ToNumber_raises (v : JSValue) (e : Exception) :
  ToNumber v = Throw e <-> e = TypeError /\ unprintable v = true.
Proof.
  rewrite <- ToString_raises.
  destruct v as [| | [|] | n | s | items | props];
    try (cbn [ToNumber ToString]; split; discriminate).
  - cbn [ToNumber]. destruct (ToString (JArray items)); cbn; split; congruence.
  - cbn [ToNumber]. destruct (ToString (JObject props)); cbn; split; congruence.
Qed.

Lemma ToString_string_or_undefined (o : option string) :
  ToString (string_or_undefined o) = Ok (default "undefined" o).
Proof. destruct o; reflexivity. Qed.

End ConversionFacts.

(** ** Hydration *)

Section Hydration.
Context {P : Platform}.

Lemma AuthProvider_first_render (storage : gmap string string) :
  AuthProvider storage None =
  match storage !! "userInfo" with
  | Some s =>
      if String.eqb s ""
      then Ok (hydrated storage (JObject []))
      else match JSON_parse s with
           | Ok v => Ok (hydrated storage v)
           | Throw e => Throw e
           end
  | None => Ok (hydrated storage (JObject []))
  end.
Proof.
  unfold AuthProvider, getItem, hydrated.
  destruct (storage !! "userInfo") as [s |]; cbn; [| reflexivity].
  destruct (String.eqb s ""); cbn; [reflexivity |].
  destruct (JSON_parse s); reflexivity.
Qed.

(** C1, as the code has it: the first render raises no exception exactly
    when the stored [userInfo] is absent, empty, or text that [JSON.parse]
    accepts. Absent or empty gives the empty identity record, accepted
    text gives the parsed value, and text that [JSON.parse] rejects makes
    the render raise the parser's exception: there is no fallback. *)
Theorem hydration_outcome (storage : gmap string string) :
  (returns (AuthProvider storage None) <->
     storage !! "userInfo" = None \/ storage !! "userInfo" = Some ""
     \/ exists s, storage !! "userInfo" = Some s /\ returns (JSON_parse s))
  /\ (storage !! "userInfo" = None \/ storage !! "userInfo" = Some "" ->
      AuthProvider storage None = Ok (hydrated storage (JObject [])))
  /\ (forall s v, storage !! "userInfo" = Some s -> s <> "" -> JSON_parse s = Ok v ->
      AuthProvider storage None = Ok (hydrated storage v))
  /\ (forall s e, storage !! "userInfo" = Some s -> s <> "" -> JSON_parse s = Throw e ->
      AuthProvider storage None = Throw e).
Proof.
  rewrite AuthProvider_first_render.
  destruct (storage !! "userInfo") as [s |] eqn:Hs.
  - destruct (String.eqb_spec s "") as [-> | Hne].
    + repeat split.
      * intros _. right. left. reflexivity.
      * intros _. eexists. reflexivity.
      * intros s v [= <-] Hne. contradiction.
      * intros s e [= <-] Hne. contradiction.
    + repeat split.
      * intros [st Hst]. right. right. exists s. split; [reflexivity |].
        destruct (JSON_parse s) as [v | e]; [eexists; reflexivity | discriminate].
      * intros [[=] | [[= ->] | [s' [[= <-] [v Hv]]]]]; [contradiction |].
        rewrite Hv. eexists. reflexivity.
      * intros [[=] | [= ->]]. contradiction.
      * intros s' v [= <-] _ ->. reflexivity.
      * intros s' e [= <-] _ ->. reflexivity.
  - repeat split.
    + intros _. left. reflexivity.
    + intros _. eexists. reflexivity.
    + intros s v [=].
    + intros s e [=].
Qed.

(** C9: whatever the storage holds, a hydrated state has no token, and
    [isAuthenticated] is false on it at every time, also when the stored
    expiry is a time in the future. *)
Theorem hydrated_state_not_authenticated
    (storage : gmap string string) (routes : list string) (w : World) :
  hydrate storage routes = Ok w ->
  token (authState w) = JNull
  /\ expiresAt (authState w) = getItem storage "expiresAt"
  /\ forall now, isAuthenticated (authState w) now = Ok false.
Proof.
  unfold hydrate. rewrite AuthProvider_first_render. intros H.
  assert (exists v, authState w = hydrated storage v) as [v Hv].
  { destruct (storage !! "userInfo") as [s |].
    - destruct (String.eqb s "").
      + injection H as <-. eexists. reflexivity.
      + destruct (JSON_parse s) as [v | e]; [| discriminate].
        injection H as <-. eexists. reflexivity.
    - injection H as <-. eexists. reflexivity. }
  rewrite Hv. repeat split.
Qed.

End Hydration.

(** C1 as stated fails: a stored [userInfo] that is not JSON makes the
    first render raise a SyntaxError; no state is built and nothing falls
    back to the empty identity record. *)
Lemma hydration_corrupt_userInfo_raises :
  JSON_parse "not json" = Throw SyntaxError
  /\ AuthProvider {[ "userInfo" := "not json" ]} None = Throw SyntaxError
  /\ ~ returns (hydrate {[ "userInfo" := "not json" ]} []).
Proof.
  split; [vm_compute; reflexivity |].
  split; [vm_compute; reflexivity |].
  intros [w Hw]. vm_compute in Hw. discriminate.
Qed.

Lemma hydration_outcome_witness :
  returns (AuthProvider {[ "userInfo" := "[1, 2]" ]} None)
  /\ AuthProvider (∅ : gmap string string) None = Ok (hydrated ∅ (JObject []))
  /\ AuthProvider {[ "userInfo" := "[1, 2]" ]} None
     = Ok (hydrated {[ "userInfo" := "[1, 2]" ]}
             (JArray [JNumber (Dec 1 0); JNumber (Dec 2 0)]))
  /\ AuthProvider {[ "userInfo" := "[1, 2" ]} None = Throw SyntaxError.
Proof.
  split.
  { apply (proj1 (hydration_outcome {[ "userInfo" := "[1, 2]" ]})).
    right. right. exists "[1, 2]". split; [reflexivity |].
    eexists. vm_compute. reflexivity. }
  split.
  { apply (proj1 (proj2 (hydration_outcome ∅))). left. reflexivity. }
  split.
  { apply (proj1 (proj2 (proj2 (hydration_outcome {[ "userInfo" := "[1, 2]" ]})))
             "[1, 2]"); [reflexivity | discriminate | vm_compute; reflexivity]. }
  apply (proj2 (proj2 (proj2 (hydration_outcome {[ "userInfo" := "[1, 2" ]})))
           "[1, 2"); [reflexivity | discriminate | vm_compute; reflexivity].
Defined.

Lemma hydrated_state_not_authenticated_witness :
  let storage : gmap string string := {[ "expiresAt" := "1000000000" ]} in
  let st := hydrated storage (JObject []) in
  hydrate storage [] = Ok (mkWorld storage st [])
  /\ ToNumber (expiresAt st) = Ok (Dec 1000000000 0)
  /\ number_ltb (seconds 999999999000) (Dec 1000000000 0) = true
  /\ token st = JNull
  /\ isAuthenticated st 999999999000 = Ok false.
Proof.
  intros storage st.
  assert (H : hydrate storage [] = Ok (mkWorld storage st [])) by (vm_compute; reflexivity).
  split; [exact H |].
  split; [vm_compute; reflexivity |].
  split; [vm_compute; reflexivity |].
  destruct (hydrated_state_not_authenticated storage [] _ H) as (Ht & _ & Hauth).
  split; [exact Ht | exact (Hauth 999999999000)].
Defined.


(** ** setAuthInfo *)

Lemma Get_raises (v : JSValue) (k : string) :
  Get v k = Throw TypeError <-> absent v = true.
Proof. destruct v; cbn; split; intros H; congruence. Qed.

Lemma Get_returns (v : JSValue) (k : string) :
  absent v = false -> exists x, Get v k = Ok x.
Proof. destruct v; cbn; intros H; try discriminate; eexists; reflexivity. Qed.


Section SetAuthInfo.
Context {P : Platform}.

Lemma setAuthInfo_absent (authInfo : JSValue) (w : World) :
  absent authInfo = true -> setAuthInfo authInfo w = (Throw TypeError, w).
Proof. destruct authInfo; cbn; intros H; try discriminate; reflexivity. Qed.

Lemma setAuthInfo_steps (authInfo t u e : JSValue) (w : World) :
  Get authInfo "token" = Ok t ->
  Get authInfo "userInfo" = Ok u ->
  Get authInfo "expiresAt" = Ok e ->
  setAuthInfo authInfo w =
  match ToString e with
  | Ok text => (Ok tt, session_installed t u e text w)
  | Throw err => (Throw err, identity_written u w)
  end.
Proof.
  intros Ht Hu He.
  unfold setAuthInfo, mbind, Effect_bind, lift, localStorage_setItem, setItem, setAuthState.
  rewrite Ht, Hu, He, ToString_string_or_undefined. cbn.
  destruct (ToString e); reflexivity.
Qed.

(** What a call of [setAuthInfo] can have done. *)
Lemma setAuthInfo_inv (authInfo : JSValue) (w : World) (r : Result unit) (w' : World) :
  setAuthInfo authInfo w = (r, w') ->
  (absent authInfo = true /\ r = Throw TypeError /\ w' = w)
  \/ exists t u e,
       Get authInfo "token" = Ok t
       /\ Get authInfo "userInfo" = Ok u
       /\ Get authInfo "expiresAt" = Ok e
       /\ ((exists text, ToString e = Ok text /\ r = Ok tt
                         /\ w' = session_installed t u e text w)
           \/ (ToString e = Throw TypeError /\ r = Throw TypeError
               /\ w' = identity_written u w)).
Proof.
  intros H. destruct (absent authInfo) eqn:Ha.
  - rewrite (setAuthInfo_absent _ _ Ha) in H. injection H as <- <-. left. repeat split.
  - right.
    destruct (Get_returns authInfo "token" Ha) as [t Ht].
    destruct (Get_returns authInfo "userInfo" Ha) as [u Hu].
    destruct (Get_returns authInfo "expiresAt" Ha) as [e He].
    exists t, u, e. repeat split; try assumption.
    rewrite (setAuthInfo_steps _ _ _ _ _ Ht Hu He) in H.
    destruct (ToString e) as [text | err] eqn:Hs.
    + injection H as <- <-. left. exists text. repeat split.
    + apply ToString_raises in Hs as [-> Hs]. injection H as <- <-.
      right. repeat split.
Qed.

Lemma setAuthInfo_returns_inv (authInfo : JSValue) (w w' : World) :
  setAuthInfo authInfo w = (Ok tt, w') ->
  exists t u e text,
    Get authInfo "token" = Ok t
    /\ Get authInfo "userInfo" = Ok u
    /\ Get authInfo "expiresAt" = Ok e
    /\ ToString e = Ok text
    /\ w' = session_installed t u e text w.
Proof.
  intros H. apply setAuthInfo_inv in H as [(_ & [=] & _) | (t & u & e & Ht & Hu & He & H)].
  destruct H as [(text & Hs & _ & ->) | (_ & [=] & _)].
  exists t, u, e, text. repeat split; assumption.
Qed.



End SetAuthInfo.





(** ** isAuthenticated and isAdmin *)

Lemma absent_falsy (v : JSValue) : absent v = true -> ToBoolean v = false.
Proof. destruct v; cbn; congruence. Qed.

Lemma seconds_time_value (now : Z) :
  Z.abs now <= max_time -> seconds now = binary64 now 1000.
Proof.
  intros H. unfold seconds. destruct (Z.leb_spec (Z.abs now) max_time); [reflexivity | lia].
Qed.

Section Predicates.
Context {P : Platform}.

Lemma isAuthenticated_falsy (st : AuthState) (now : Z) :
  ToBoolean (token st) = false \/ ToBoolean (expiresAt st) = false ->
  isAuthenticated st now = Ok false.
Proof.
  unfold isAuthenticated.
  intros [H | H]; rewrite H; cbn [negb orb]; [| rewrite orb_true_r]; reflexivity.
Qed.

Lemma isAuthenticated_truthy (st : AuthState) (now : Z) :
  ToBoolean (token st) = true ->
  ToBoolean (expiresAt st) = true ->
  isAuthenticated st now
  = (y ← ToNumber (expiresAt st); Ok (number_ltb (seconds now) y)).
Proof. unfold isAuthenticated. intros -> ->. reflexivity. Qed.

(** C3, as the code has it: [isAuthenticated] is false when the token or
    the expiry is absent, and more generally when either is falsy (also
    the empty string, zero, [NaN] and [false]). Otherwise the expiry is
    converted to a number: when it has none, the call raises a TypeError;
    when it has one, the call is true exactly when the clock reading
    divided by 1000, a binary64 quotient, is strictly below it. For a
    clock reading that is a time value the quotient is the rounded one,
    within 1/2048 of the exact quotient. *)
Theorem isAuthenticated_iff (st : AuthState) (now : Z) :
  (absent (token st) = true \/ absent (expiresAt st) = true ->
   isAuthenticated st now = Ok false)
  /\ (ToBoolean (token st) = false \/ ToBoolean (expiresAt st) = false ->
      isAuthenticated st now = Ok false)
  /\ (isAuthenticated st now = Ok true <->
      ToBoolean (token st) = true
      /\ ToBoolean (expiresAt st) = true
      /\ exists y, ToNumber (expiresAt st) = Ok y /\ number_lt (seconds now) y)
  /\ (forall err,
      isAuthenticated st now = Throw err <->
      ToBoolean (token st) = true
      /\ ToBoolean (expiresAt st) = true
      /\ err = TypeError
      /\ unprintable (expiresAt st) = true)
  /\ (Z.abs now <= max_time ->
      seconds now = binary64 now 1000
      /\ (Qabs (number_value (seconds now) - inject_Z now / inject_Z 1000) <= 1 # 2048)%Q).
Proof.
  split; [| split; [apply isAuthenticated_falsy | split; [| split]]].
  - intros [H | H]; apply absent_falsy in H; apply isAuthenticated_falsy; tauto.
  - destruct (ToBoolean (token st)) eqn:Ht;
      [| rewrite isAuthenticated_falsy by tauto;
         split; [discriminate | intros (H & _); discriminate]].
    destruct (ToBoolean (expiresAt st)) eqn:He;
      [| rewrite isAuthenticated_falsy by tauto;
         split; [discriminate | intros (_ & H & _); discriminate]].
    rewrite (isAuthenticated_truthy _ _ Ht He).
    destruct (ToNumber (expiresAt st)) as [y | err]; cbn.
    + split.
      * intros [= H]. repeat split. exists y. split; [reflexivity |].
        apply number_ltb_lt. exact H.
      * intros (_ & _ & y' & [= <-] & H). apply number_ltb_lt in H. rewrite H. reflexivity.
    + split; [discriminate | intros (_ & _ & y' & [=] & _)].
  - intros err.
    destruct (ToBoolean (token st)) eqn:Ht;
      [| rewrite isAuthenticated_falsy by tauto;
         split; [discriminate | intros (H & _); discriminate]].
    destruct (ToBoolean (expiresAt st)) eqn:He;
      [| rewrite isAuthenticated_falsy by tauto;
         split; [discriminate | intros (_ & H & _); discriminate]].
    rewrite (isAuthenticated_truthy _ _ Ht He).
    pose proof (ToNumber_raises (expiresAt st) err) as Hr.
    destruct (ToNumber (expiresAt st)) as [y | err']; cbn.
    + split; [discriminate |]. intros (_ & _ & H). apply Hr in H. discriminate.
    + split.
      * intros [= ->]. repeat split; apply Hr; reflexivity.
      * intros (_ & _ & H). apply Hr in H. injection H as ->. reflexivity.
  - intros Hnow. split; [apply seconds_time_value, Hnow | apply seconds_accuracy, Hnow].
Qed.

End Predicates.

(** C3 as stated fails: with an empty string for a token, which is a
    token that is not absent, and an expiry in the future,
    [isAuthenticated] is false although the time is before the expiry. *)
Lemma isAuthenticated_empty_token :
  let st := {| token := JString "";
               expiresAt := JNumber (Dec 2000000000 0);
               userInfo := JObject [] |} in
  let now := 1700000000000 in
  absent (token st) = false
  /\ absent (expiresAt st) = false
  /\ ToNumber (expiresAt st) = Ok (Dec 2000000000 0)
  /\ number_ltb (seconds now) (Dec 2000000000 0) = true
  /\ isAuthenticated_spec st now = Ok true
  /\ isAuthenticated st now = Ok false.
Proof. vm_compute. repeat split. Qed.

Lemma isAuthenticated_iff_witness :
  let st := {| token := JString "t0k3n";
               expiresAt := JNumber (Dec 2000000000 0);
               userInfo := JObject [] |} in
  let bad := JObject [("toString", JNumber (Dec 1 0))] in
  isAuthenticated st 1700000000000 = Ok true
  /\ isAuthenticated (mkAuthState JNull (expiresAt st) (userInfo st)) 1700000000000 = Ok false
  /\ isAuthenticated (mkAuthState (token st) (JNumber (Dec 0 0)) (userInfo st)) 1700000000000
     = Ok false
  /\ isAuthenticated (mkAuthState (token st) bad (userInfo st)) 1700000000000
     = Throw TypeError
  /\ seconds 1700000000002 = binary64 1700000000002 1000.
Proof.
  intros st bad. split; [| split; [| split; [| split]]].
  - apply (proj1 (proj2 (proj2 (isAuthenticated_iff st 1700000000000)))).
    split; [reflexivity |]. split; [reflexivity |].
    exists (Dec 2000000000 0). split; [reflexivity |].
    apply number_ltb_lt. vm_compute. reflexivity.
  - apply (proj1 (isAuthenticated_iff (mkAuthState JNull (expiresAt st) (userInfo st))
                    1700000000000)).
    left. reflexivity.
  - apply (proj1 (proj2 (isAuthenticated_iff
                           (mkAuthState (token st) (JNumber (Dec 0 0)) (userInfo st))
                           1700000000000))).
    right. reflexivity.
  - apply (proj1 (proj2 (proj2 (proj2 (isAuthenticated_iff
                                         (mkAuthState (token st) bad (userInfo st))
                                         1700000000000))))).
    repeat split.
  - apply (proj2 (proj2 (proj2 (proj2 (isAuthenticated_iff st 1700000000002))))).
    vm_compute. discriminate.
Defined.

(** C7: for every identity record, [isAdmin] returns, and returns true
    exactly when the record's [role] is the string [admin]; a record
    without a role, and the empty record, give false. *)
Theorem isAdmin_iff_role_admin (sessionToken expiry : JSValue)
    (props : list (string * JSValue)) :
  let st := {| token := sessionToken; expiresAt := expiry; userInfo := JObject props |} in
  (exists b, isAdmin st = Ok b)
  /\ (isAdmin st = Ok true <-> Get (JObject props) "role" = Ok (JString "admin"))
  /\ (lookup_prop "role" props = None -> isAdmin st = Ok false)
  /\ isAdmin (mkAuthState sessionToken expiry (JObject [])) = Ok false.
Proof.
  cbn. unfold isAdmin. cbn.
  set (role := default JUndefined (lookup_prop "role" props)).
  repeat split.
  - eexists. reflexivity.
  - intros [= H]. destruct role; cbn in H; try discriminate.
    apply String.eqb_eq in H. subst. reflexivity.
  - intros [= ->]. reflexivity.
  - intros H. subst role. rewrite H. reflexivity.
Qed.

Lemma isAdmin_iff_role_admin_witness :
  isAdmin (mkAuthState JNull JNull (JObject [("role", JString "admin")])) = Ok true
  /\ isAdmin (mkAuthState JNull JNull (JObject [("name", JString "admin")])) = Ok false.
Proof.
  split.
  - apply (proj1 (proj2 (isAdmin_iff_role_admin JNull JNull [("role", JString "admin")]))).
    reflexivity.
  - apply (proj1 (proj2 (proj2 (isAdmin_iff_role_admin JNull JNull
                                  [("name", JString "admin")])))).
    reflexivity.
Defined.

(** ** logout *)

Lemma logout_storage_lookup (w : World) (k : string) :
  localStorage (logout w) !! k =
  if decide (k = "userInfo" \/ k = "expiresAt") then None else localStorage w !! k.
Proof.
  unfold logout, removeItem. cbn [localStorage].
  destruct (decide (k = "userInfo" \/ k = "expiresAt")) as [[-> | ->] | Hk].
  - rewrite lookup_delete_ne by discriminate. apply lookup_delete_eq.
  - apply lookup_delete_eq.
  - rewrite !lookup_delete_ne by (intros <-; tauto). reflexivity.
Qed.

Lemma logout_logout_storage (w : World) :
  localStorage (logout (logout w)) = localStorage (logout w).
Proof.
  apply map_eq. intros k. rewrite !logout_storage_lookup.
  destruct (decide _); reflexivity.
Qed.

Section Logout.
Context {P : Platform}.

Lemma setAuthInfo_history (authInfo : JSValue) (w : World) (r : Result unit) (w' : World) :
  setAuthInfo authInfo w = (r, w') -> history w' = history w.
Proof.
  intros H. apply setAuthInfo_inv in H as [(_ & _ & ->) | (t & u & e & _ & _ & _ & H)];
    [reflexivity |].
  destruct H as [(text & _ & _ & ->) | (_ & _ & ->)]; reflexivity.
Qed.

Lemma run_auth_history (op : AuthOp) (w : World) (r : Result unit) (w' : World) :
  run_auth op w = (r, w') ->
  history w' = if navigates (AuthCall op) then history w ++ ["/login"] else history w.
Proof.
  destruct op as [authInfo | | now |]; cbn.
  - apply setAuthInfo_history.
  - intros [= _ <-]. reflexivity.
  - intros [= _ <-]. reflexivity.
  - intros [= _ <-]. reflexivity.
Qed.

(** C5: from every state, [logout] leaves the empty state, removes the
    [userInfo] and [expiresAt] keys and no other, and pushes the [/login]
    route; mounting the providers and every other call or gateway event,
    whether it returns or raises, leave the history as it was. *)
Theorem logout_resets_and_navigates (w : World) :
  authState (logout w) = emptyAuthState
  /\ localStorage (logout w) !! "userInfo" = None
  /\ localStorage (logout w) !! "expiresAt" = None
  /\ (forall k, k <> "userInfo" -> k <> "expiresAt" ->
      localStorage (logout w) !! k = localStorage w !! k)
  /\ history (logout w) = history w ++ ["/login"]
  /\ (forall op a r a', run_app op a = (r, a') ->
      history (world a') =
      if navigates op then history (world a) ++ ["/login"] else history (world a))
  /\ (forall storage routes a, mount storage routes = Ok a ->
      history (world a) = routes).
Proof.
  repeat split.
  - rewrite logout_storage_lookup. reflexivity.
  - rewrite logout_storage_lookup. reflexivity.
  - intros k H1 H2. rewrite logout_storage_lookup.
    destruct (decide _) as [[? | ?] | ?]; [contradiction | contradiction | reflexivity].
  - intros [op | ev] a r a'; cbn.
    + destruct (run_auth op (world a)) as [r1 w1] eqn:Hrun.
      intros [= _ <-]. cbn. apply (run_auth_history _ _ _ _ Hrun).
    + intros [= _ <-]. reflexivity.
  - intros storage routes a. unfold mount, hydrate.
    destruct (AuthProvider storage None); cbn; [| discriminate].
    intros [= <-]. reflexivity.
Qed.

(** C10: calling [logout] twice leaves the state and the storage that
    calling it once leaves: the empty state, and a storage without the
    [userInfo] and [expiresAt] keys whose other keys are as before. The
    call returns from every world, and on a world that is already logged
    out it changes neither the state nor the storage. *)
Theorem logout_idempotent (w : World) :
  authState (logout (logout w)) = authState (logout w)
  /\ localStorage (logout (logout w)) = localStorage (logout w)
  /\ authState (logout (logout w)) = emptyAuthState
  /\ localStorage (logout (logout w)) !! "userInfo" = None
  /\ localStorage (logout (logout w)) !! "expiresAt" = None
  /\ (forall k, k <> "userInfo" -> k <> "expiresAt" ->
      localStorage (logout (logout w)) !! k = localStorage w !! k)
  /\ run_auth OpLogout w = (Ok tt, logout w)
  /\ run_auth OpLogout (logout w) = (Ok tt, logout (logout w))
  /\ run_auth_all [OpLogout; OpLogout] w = logout (logout w)
  /\ authState (run_auth_all [OpLogout; OpLogout] w) = emptyAuthState
  /\ localStorage (run_auth_all [OpLogout; OpLogout] w) !! "userInfo" = None
  /\ localStorage (run_auth_all [OpLogout; OpLogout] w) !! "expiresAt" = None
  /\ localStorage (run_auth_all [OpLogout; OpLogout] w)
     = localStorage (run_auth_all [OpLogout] w)
  /\ (authState w = emptyAuthState ->
      localStorage w !! "userInfo" = None ->
      localStorage w !! "expiresAt" = None ->
      authState (logout w) = authState w /\ localStorage (logout w) = localStorage w).
Proof.
  assert (Hu : localStorage (logout (logout w)) !! "userInfo" = None)
    by (rewrite logout_storage_lookup; reflexivity).
  assert (He : localStorage (logout (logout w)) !! "expiresAt" = None)
    by (rewrite logout_storage_lookup; reflexivity).
  split; [reflexivity |]. split; [apply logout_logout_storage |].
  split; [reflexivity |]. split; [exact Hu |]. split; [exact He |].
  split.
  { intros k H1 H2. rewrite !logout_storage_lookup.
    destruct (decide _) as [[? | ?] | ?]; [contradiction | contradiction | reflexivity]. }
  split; [reflexivity |]. split; [reflexivity |]. split; [reflexivity |].
  split; [reflexivity |]. split; [exact Hu |]. split; [exact He |].
  split; [apply logout_logout_storage |].
  intros Hst Hu0 He0. split; [symmetry; exact Hst |].
  apply map_eq. intros k. rewrite logout_storage_lookup.
  destruct (decide _) as [[-> | ->] | ?]; congruence.
Qed.

End Logout.

Lemma logout_resets_and_navigates_witness :
  let w := mkWorld {[ "userInfo" := "{}"; "theme" := "dark" ]} emptyAuthState ["/home"] in
  history (logout w) = ["/home"; "/login"]
  /\ localStorage (logout w) !! "theme" = Some "dark"
  /\ (forall r a',
      run_app (AuthCall (OpIsAuthenticated 0)) (mkApp w (FetchProvider None)) = (r, a') ->
      history (world a') = ["/home"]).
Proof.
  intros w.
  destruct (logout_resets_and_navigates w) as (_ & _ & _ & Hk & Hh & Hop & _).
  split; [exact Hh |].
  split; [rewrite Hk by discriminate; reflexivity |].
  intros r a' Ha'. exact (Hop _ _ _ _ Ha').
Defined.

Lemma logout_idempotent_witness :
  let w := mkWorld {[ "userInfo" := "{}"; "expiresAt" := "2000000000"; "theme" := "dark" ]}
                   (mkAuthState (JString "t0k3n") (JNumber (Dec 2000000000 0)) (JObject []))
                   ["/home"] in
  localStorage w !! "userInfo" = Some "{}"
  /\ localStorage w !! "expiresAt" = Some "2000000000"
  /\ localStorage (logout (logout w)) !! "userInfo" = None
  /\ localStorage (logout (logout w)) !! "expiresAt" = None
  /\ localStorage (logout (logout w)) !! "theme" = Some "dark"
  /\ authState (logout (logout w)) = emptyAuthState
  /\ authState (logout (logout w)) = authState (logout w)
  /\ localStorage (logout (logout w)) = localStorage (logout w).
Proof.
  intros w.
  destruct (logout_idempotent w) as (_ & _ & Hst & Hu & He & Hk & _).
  split; [reflexivity |]. split; [reflexivity |].
  split; [exact Hu |]. split; [exact He |].
  split; [rewrite Hk by discriminate; reflexivity |].
  split; [exact Hst |].
  apply (proj2 (proj2 (proj2 (proj2 (proj2 (proj2 (proj2 (proj2 (proj2 (proj2 (proj2 (proj2
           (proj2 (logout_idempotent (logout w))))))))))))))).
  - reflexivity.
  - vm_compute. reflexivity.
  - vm_compute. reflexivity.
Defined.

(** ** The token and the storage *)

Section TokenNotPersisted.
Context {P : Platform}.

Lemma AuthProvider_reads_two_keys (storage1 storage2 : gmap string string)
    (cell : option AuthState) :
  storage1 !! "userInfo" = storage2 !! "userInfo" ->
  storage1 !! "expiresAt" = storage2 !! "expiresAt" ->
  AuthProvider storage1 cell = AuthProvider storage2 cell.
Proof. intros Hu He. unfold AuthProvider, getItem. rewrite Hu, He. reflexivity. Qed.

(** What a call does to the storage, whether it returns or raises,
    depends on the storage and on the call, not on the state and not on
    the token. *)
Lemma run_auth_storage (op : AuthOp) (w : World) :
  localStorage (snd (run_auth op w)) =
  match op with
  | OpSetAuthState authInfo =>
      match Get authInfo "userInfo", Get authInfo "expiresAt" with
      | Ok u, Ok e =>
          match ToString e with
          | Ok text =>
              <["expiresAt" := text]>
                (<["userInfo" := stored_identity u]> (localStorage w))
          | Throw _ => <["userInfo" := stored_identity u]> (localStorage w)
          end
      | _, _ => localStorage w
      end
  | OpLogout => delete "expiresAt" (delete "userInfo" (localStorage w))
  | _ => localStorage w
  end.
Proof.
  destruct op as [authInfo | | now |]; cbn; try reflexivity.
  destruct (absent authInfo) eqn:Ha.
  - rewrite (setAuthInfo_absent _ _ Ha).
    apply (Get_raises authInfo "userInfo") in Ha. rewrite Ha. reflexivity.
  - destruct (Get_returns authInfo "token" Ha) as [t Ht].
    destruct (Get_returns authInfo "userInfo" Ha) as [u Hu].
    destruct (Get_returns authInfo "expiresAt" Ha) as [e He].
    rewrite (setAuthInfo_steps _ _ _ _ _ Ht Hu He), Hu, He.
    destruct (ToString e); reflexivity.
Qed.

Lemma run_auth_variant (op1 op2 : AuthOp) (w1 w2 : World) :
  token_variant op1 op2 ->
  localStorage w1 = localStorage w2 ->
  localStorage (snd (run_auth op1 w1)) = localStorage (snd (run_auth op2 w2)).
Proof.
  intros Hv Hs. rewrite !run_auth_storage.
  destruct op1 as [a1 | | n1 |], op2 as [a2 | | n2 |]; cbn in Hv; try discriminate;
    try (rewrite Hs; reflexivity).
  destruct Hv as [-> ->]. rewrite Hs. reflexivity.
Qed.

Lemma run_auth_all_variant (ops1 ops2 : list AuthOp) :
  Forall2 token_variant ops1 ops2 ->
  forall w1 w2, localStorage w1 = localStorage w2 ->
  localStorage (run_auth_all ops1 w1) = localStorage (run_auth_all ops2 w2).
Proof.
  induction 1 as [| op1 op2 ops1 ops2 Hv _ IH]; intros w1 w2 Hs; cbn.
  - assumption.
  - apply IH. apply run_auth_variant; assumption.
Qed.

Lemma run_auth_other_keys (op : AuthOp) (w : World) (k : string) :
  k <> "userInfo" -> k <> "expiresAt" ->
  localStorage (snd (run_auth op w)) !! k = localStorage w !! k.
Proof.
  intros H1 H2. rewrite run_auth_storage.
  destruct op as [authInfo | | now |]; try reflexivity.
  - destruct (Get authInfo "userInfo"), (Get authInfo "expiresAt"); try reflexivity.
    destruct (ToString _); rewrite !lookup_insert_ne by congruence; reflexivity.
  - rewrite !lookup_delete_ne by congruence. reflexivity.
Qed.

(** C6: the first render reads no key but [userInfo] and [expiresAt];
    [setAuthInfo], whether it returns or raises, writes these two keys
    and no other, with values that do not depend on the token; [logout]
    only removes keys. So over every sequence of calls a key other than
    the two is never created, and the storage is the same whatever
    tokens were passed. *)
Theorem token_never_persisted :
  (forall storage1 storage2 cell,
     storage1 !! "userInfo" = storage2 !! "userInfo" ->
     storage1 !! "expiresAt" = storage2 !! "expiresAt" ->
     AuthProvider storage1 cell = AuthProvider storage2 cell)
  /\ (forall authInfo w r w' k,
        setAuthInfo authInfo w = (r, w') ->
        k <> "userInfo" -> k <> "expiresAt" ->
        localStorage w' !! k = localStorage w !! k)
  /\ (forall w, localStorage (logout w) ⊆ localStorage w)
  /\ (forall ops w k,
        k <> "userInfo" -> k <> "expiresAt" ->
        localStorage w !! k = None ->
        localStorage (run_auth_all ops w) !! k = None)
  /\ (forall ops1 ops2 w,
        Forall2 token_variant ops1 ops2 ->
        localStorage (run_auth_all ops1 w) = localStorage (run_auth_all ops2 w)).
Proof.
  split; [exact AuthProvider_reads_two_keys |].
  split.
  { intros authInfo w r w' k Hw H1 H2.
    pose proof (run_auth_other_keys (OpSetAuthState authInfo) w k H1 H2) as H.
    cbn [run_auth] in H. rewrite Hw in H. exact H. }
  split.
  { intros w. apply map_subseteq_spec. intros k v. rewrite logout_storage_lookup.
    destruct (decide _); [discriminate | trivial]. }
  split.
  { intros ops. induction ops as [| op ops IH]; intros w k H1 H2 Hk; cbn.
    - assumption.
    - apply IH; [assumption | assumption |].
      rewrite run_auth_other_keys by assumption. assumption. }
  intros ops1 ops2 w Hv. apply run_auth_all_variant; [assumption | reflexivity].
Qed.

End TokenNotPersisted.

Lemma token_never_persisted_witness :
  let login t := OpSetAuthState (session (JObject [("role", JString "admin")]) (JString t)
                                   (JNumber (Dec 2000000000 0))) in
  let w := mkWorld ∅ emptyAuthState [] in
  localStorage (run_auth_all [login "secret-1"; OpIsAdmin; OpLogout; login "secret-2"] w)
  = localStorage (run_auth_all [login "x"; OpIsAdmin; OpLogout; login "y"] w)
  /\ localStorage (run_auth_all [login "secret-1"] w) !! "token" = None.
Proof.
  intros login w.
  destruct (token_never_persisted (P := ecma)) as (_ & _ & _ & Hkeys & Hvar).
  split.
  - apply Hvar. repeat constructor.
  - apply Hkeys; [discriminate | discriminate | reflexivity].
Defined.

(** ** The CSRF handshake *)

Lemma gateway_inv_mount : gateway_inv (FetchProvider None).
Proof. exists axios_create, []. repeat split. constructor. Qed.

Lemma gateway_inv_step (g : Gateway) (ev : GatewayEvent) :
  gateway_inv g -> gateway_inv (gateway_step g ev).
Proof.
  intros (first & later & Hi & Hl & Hf & Hs).
  destruct ev as [| | response | i m u]; cbn.
  - exists first, (later ++ [axios_create]). rewrite Hi. repeat split; try assumption.
    apply Forall_app. split; [assumption | repeat constructor].
  - unfold run_effect.
    destruct (handshake g) eqn:Hh; try (exists first, later; rewrite Hh; tauto).
    unfold getCsrfToken_call, request. rewrite Hi. cbn.
    exists first, later. repeat split; try assumption.
    + intros _. apply Hf. discriminate.
    + cbn [sent handshake]. rewrite filter_app, length_app, Hs. reflexivity.
  - unfold getCsrfToken_resume.
    destruct (handshake g) eqn:Hh; try (exists first, later; rewrite Hh; tauto).
    destruct response as [data |]; [destruct (Get data "csrfToken") as [t |] |];
      cbn [instances handshake sent].
    + exists (<["X-CSRF-Token" := t]> first), later. rewrite Hi. repeat split; try assumption.
      intros Hne. contradiction.
    + exists first, later. repeat split; try assumption. intros _. apply Hf. congruence.
    + exists first, later. repeat split; try assumption. intros _. apply Hf. congruence.
  - unfold request. destruct (instances g !! i) as [defaults |];
      [| exists first, later; tauto].
    exists first, later. cbn [instances handshake sent]. repeat split; try assumption.
    rewrite filter_app, length_app. cbn. rewrite Hs. apply Nat.add_0_r.
Qed.

Lemma gateway_inv_run (evs : list GatewayEvent) (g : Gateway) :
  gateway_inv g -> gateway_inv (gateway_run evs g).
Proof.
  revert g. induction evs as [| ev evs IH]; intros g Hg; cbn; [assumption |].
  apply IH, gateway_inv_step, Hg.
Qed.

(** Once the promise is settled, nothing touches the first client. *)
Lemma gateway_settled_step (g : Gateway) (ev : GatewayEvent) :
  gateway_inv g -> handshake g = Fulfilled \/ handshake g = Rejected ->
  handshake (gateway_step g ev) = handshake g
  /\ instances (gateway_step g ev) !! 0%nat = instances g !! 0%nat.
Proof.
  intros (first & later & Hi & _) Hh.
  destruct ev as [| | response | i m u]; cbn.
  - rewrite Hi. split; reflexivity.
  - unfold run_effect.
    destruct Hh as [Hh | Hh]; rewrite Hh; cbn; (split; [exact Hh | reflexivity]).
  - unfold getCsrfToken_resume.
    destruct Hh as [Hh | Hh]; rewrite Hh; cbn; (split; [exact Hh | reflexivity]).
  - unfold request. destruct (instances g !! i); split; reflexivity.
Qed.

Lemma gateway_settled_run (evs : list GatewayEvent) (g : Gateway) :
  gateway_inv g -> handshake g = Fulfilled \/ handshake g = Rejected ->
  handshake (gateway_run evs g) = handshake g
  /\ instances (gateway_run evs g) !! 0%nat = instances g !! 0%nat.
Proof.
  revert g. induction evs as [| ev evs IH]; intros g Hg Hh; cbn; [tauto |].
  destruct (gateway_settled_step g ev Hg Hh) as [H1 H2].
  assert (Hh' : handshake (gateway_step g ev) = Fulfilled
                \/ handshake (gateway_step g ev) = Rejected) by (rewrite H1; exact Hh).
  destruct (IH (gateway_step g ev) (gateway_inv_step g ev Hg) Hh') as [H3 H4].
  unfold gateway_run in H3, H4. split; congruence.
Qed.

(** The response that settles a pending handshake. *)
Lemma getCsrfToken_resume_pending (response : option JSValue) (g : Gateway) :
  gateway_inv g -> handshake g = Pending ->
  let g' := getCsrfToken_resume response g in
  sent g' = sent g
  /\ match fetched_token response with
     | Some t =>
         handshake g' = Fulfilled
         /\ exists defaults, instances g' !! 0%nat = Some defaults
                             /\ csrf_header defaults = Some t
     | None =>
         handshake g' = Rejected /\ instances g' = instances g
     end.
Proof.
  intros (first & later & Hi & _) Hh. unfold getCsrfToken_resume, fetched_token.
  rewrite Hh.
  destruct response as [data |]; [destruct (Get data "csrfToken") as [t |] |];
    cbn; repeat split.
  rewrite Hi. cbn. eexists. split; [reflexivity |].
  unfold csrf_header. apply lookup_insert_eq.
Qed.

(** A call through the first client leaves at once, with the defaults the
    client has. *)
Lemma request_first_client (g : Gateway) (m u : string) (defaults : gmap string JSValue) :
  instances g !! 0%nat = Some defaults ->
  sent (gateway_step g (EvRequest 0 m u)) = sent g ++ [mkRequest ByCaller 0 m u defaults].
Proof. intros H. cbn. unfold request. rewrite H. reflexivity. Qed.

(** A client created by a later render is never given the header: the
    effect holds on to the client of the mounting render. *)
Lemma later_clients_never_configured (evs : list GatewayEvent) (i : nat)
    (defaults : gmap string JSValue) :
  instances (gateway_run evs (FetchProvider None)) !! S i = Some defaults ->
  csrf_header defaults = None.
Proof.
  pose proof (gateway_inv_run evs _ gateway_inv_mount) as (first & later & Hi & Hl & _).
  rewrite Hi. cbn. intros H. rewrite Forall_lookup in Hl. exact (Hl _ _ H).
Qed.

(** C8 fails after a re-render of the provider. The handshake is
    fulfilled with the token [c5rf]; the provider renders again, which
    creates a second client, and hands that client to its consumers. A
    request through it leaves without the [X-CSRF-Token] header: the
    header was set on the client of the mounting render, which no
    consumer can reach any more. *)
Theorem csrf_header_missing_after_rerender :
  let data := JObject [("csrfToken", JString "c5rf")] in
  let g := gateway_run [EvEffect; EvResponse (Some data); EvRender] (FetchProvider None) in
  handshake g = Fulfilled
  /\ List.map (fun r => (origin r, method r, url r)) (sent g)
     = [(ByHandshake, "GET", "/csrf-token")]
  /\ (exists defaults,
        instances g !! 0%nat = Some defaults
        /\ csrf_header defaults = Some (JString "c5rf"))
  /\ exposed_client g = instances g !! 1%nat
  /\ (exists defaults,
        exposed_client g = Some defaults
        /\ csrf_header defaults = None
        /\ sent (gateway_step g (EvRequest 1 "POST" "/inventory"))
           = sent g ++ [mkRequest ByCaller 1 "POST" "/inventory" defaults]).
Proof.
  cbv zeta. split; [reflexivity |]. split; [reflexivity |].
  split; [eexists; split; [reflexivity | vm_compute; reflexivity] |].
  split; [reflexivity |].
  eexists. split; [reflexivity |]. split; [vm_compute; reflexivity | reflexivity].
Qed.

(** * Further properties of the session store *)

Section SessionStore.
Context {P : Platform}.

(** A render on a cell that holds [st]: the initial state is evaluated,
    and dropped. *)
Lemma AuthProvider_render (storage : gmap string string) (st : AuthState) :
  AuthProvider storage (Some st) =
  match storage !! "userInfo" with
  | Some s =>
      if String.eqb s ""
      then Ok st
      else match JSON_parse s with
           | Ok _ => Ok st
           | Throw e => Throw e
           end
  | None => Ok st
  end.
Proof.
  unfold AuthProvider, getItem.
  destruct (storage !! "userInfo") as [s |]; cbn; [| reflexivity].
  destruct (String.eqb s ""); cbn; [reflexivity |].
  destruct (JSON_parse s); reflexivity.
Qed.

Lemma session_installed_userInfo (t u e : JSValue) (text : string) (w : World) :
  localStorage (session_installed t u e text w) !! "userInfo" = Some (stored_identity u).
Proof. cbn. rewrite lookup_insert_ne by discriminate. apply lookup_insert_eq. Qed.

Lemma session_installed_expiresAt (t u e : JSValue) (text : string) (w : World) :
  localStorage (session_installed t u e text w) !! "expiresAt" = Some text.
Proof. cbn. apply lookup_insert_eq. Qed.

(** X1: a reload after [setAuthInfo] does not bring the session back. The
    state hydrated from the storage the call wrote has no token, its
    expiry is the text form of the expiry that was passed (a number comes
    back as a string), its identity is what [JSON.parse] makes of the
    stored text, and [isAuthenticated] is false on it at every time. *)
Theorem reload_after_setAuthInfo
    (authInfo : JSValue) (w w' w'' : World) (routes : list string) :
  setAuthInfo authInfo w = (Ok tt, w') ->
  hydrate (localStorage w') routes = Ok w'' ->
  token (authState w'') = JNull
  /\ (exists text,
        ToString (expiresAt (authState w')) = Ok text
        /\ expiresAt (authState w'') = JString text)
  /\ (let stored := stored_identity (userInfo (authState w')) in
      if String.eqb stored ""
      then userInfo (authState w'') = JObject []
      else JSON_parse stored = Ok (userInfo (authState w'')))
  /\ localStorage w'' = localStorage w'
  /\ forall now, isAuthenticated (authState w'') now = Ok false.
Proof.
  intros Hset Hhyd.
  destruct (setAuthInfo_returns_inv _ _ _ Hset) as (t & u & e & text & _ & _ & _ & Hs & ->).
  unfold hydrate in Hhyd.
  rewrite AuthProvider_first_render, session_installed_userInfo in Hhyd.
  unfold hydrated, getItem in Hhyd. rewrite session_installed_expiresAt in Hhyd.
  cbn [authState userInfo expiresAt session_installed].
  destruct (String.eqb (stored_identity u) "").
  - injection Hhyd as <-. repeat split. exists text. split; [exact Hs | reflexivity].
  - destruct (JSON_parse (stored_identity u)) as [v |]; [| discriminate].
    injection Hhyd as <-. repeat split. exists text. split; [exact Hs | reflexivity].
Qed.

(** X2: [logout] undoes what [setAuthInfo] did to the storage. After a
    call of [setAuthInfo] and a [logout] the storage is what a [logout]
    alone would have left, so a storage that held neither key is back as
    it was; the state is the empty one and one route was pushed. *)
Theorem logout_after_setAuthInfo (authInfo : JSValue) (w w' : World) :
  setAuthInfo authInfo w = (Ok tt, w') ->
  localStorage (logout w') = localStorage (logout w)
  /\ (localStorage w !! "userInfo" = None ->
      localStorage w !! "expiresAt" = None ->
      localStorage (logout w') = localStorage w)
  /\ authState (logout w') = emptyAuthState
  /\ history (logout w') = history w ++ ["/login"].
Proof.
  intros Hset.
  destruct (setAuthInfo_returns_inv _ _ _ Hset) as (t & u & e & text & _ & _ & _ & _ & ->).
  assert (Hsame : localStorage (logout (session_installed t u e text w))
                  = localStorage (logout w)).
  { apply map_eq. intros k. rewrite !logout_storage_lookup. cbn [localStorage session_installed].
    destruct (decide _) as [Hk | Hk]; [reflexivity |].
    rewrite !lookup_insert_ne by (intros <-; tauto). reflexivity. }
  repeat split.
  - exact Hsame.
  - intros Hu He. rewrite Hsame. apply map_eq. intros k.
    rewrite logout_storage_lookup.
    destruct (decide _) as [[-> | ->] | Hk]; congruence.
Qed.

(** X3: a reload after [logout] always succeeds and gives the empty
    state, whatever the storage held before, also text under [userInfo]
    that [JSON.parse] rejects. *)
Theorem reload_after_logout (w : World) (routes : list string) :
  hydrate (localStorage (logout w)) routes =
  Ok {| localStorage := localStorage (logout w);
        authState := emptyAuthState;
        history := routes |}.
Proof.
  unfold hydrate. rewrite AuthProvider_first_render.
  unfold hydrated, getItem. rewrite !logout_storage_lookup.
  reflexivity.
Qed.

(** X4: the last call of [setAuthInfo] wins. Two calls in a row leave the
    world the second call alone would have left: state and both storage
    entries are replaced, nothing of the first call remains. *)
Theorem setAuthInfo_last_wins (first second : JSValue) (w w1 w2 : World) :
  setAuthInfo first w = (Ok tt, w1) ->
  setAuthInfo second w1 = (Ok tt, w2) ->
  setAuthInfo second w = (Ok tt, w2).
Proof.
  intros H1 H2.
  destruct (setAuthInfo_returns_inv _ _ _ H1)
    as (t1 & u1 & e1 & text1 & _ & _ & _ & _ & ->).
  destruct (setAuthInfo_returns_inv _ _ _ H2)
    as (t2 & u2 & e2 & text2 & Ht & Hu & He & Hs & ->).
  rewrite (setAuthInfo_steps _ _ _ _ _ Ht Hu He), Hs.
  unfold session_installed. cbn [localStorage history]. f_equal. f_equal.
  apply map_eq. intros k.
  destruct (decide (k = "expiresAt")) as [-> | Hk1].
  - rewrite !lookup_insert_eq. reflexivity.
  - rewrite (lookup_insert_ne _ "expiresAt" k) by congruence.
    rewrite (lookup_insert_ne _ "expiresAt" k) by congruence.
    destruct (decide (k = "userInfo")) as [-> | Hk2].
    + rewrite !lookup_insert_eq. reflexivity.
    + rewrite !lookup_insert_ne by congruence. reflexivity.
Qed.

Lemma isAdmin_raises (st : AuthState) (e : Exception) :
  isAdmin st = Throw e <-> e = TypeError /\ absent (userInfo st) = true.
Proof.
  unfold isAdmin. destruct (userInfo st); cbn;
    (split; [intros H; try discriminate; injection H as <-; split; reflexivity
            | intros [-> H]; try discriminate; reflexivity]).
Qed.

Lemma AuthProvider_render_state (storage : gmap string string) (st st' : AuthState) :
  AuthProvider storage (Some st) = Ok st' -> st' = st.
Proof.
  rewrite AuthProvider_render.
  destruct (storage !! "userInfo") as [s |]; [| intros [= <-]; reflexivity].
  destruct (String.eqb s ""); [intros [= <-]; reflexivity |].
  destruct (JSON_parse s); [intros [= <-]; reflexivity | discriminate].
Qed.

(** X8: a later render gives back the state of the cell, whatever the
    storage holds by then; yet it still evaluates [JSON.parse] on the
    stored identity, so it raises exactly when a first render on the same
    storage would. *)
Theorem rerender_keeps_state (storage : gmap string string) (st : AuthState) :
  (forall st', AuthProvider storage (Some st) = Ok st' -> st' = st)
  /\ (returns (AuthProvider storage (Some st)) <-> returns (AuthProvider storage None))
  /\ (forall e, AuthProvider storage (Some st) = Throw e <->
                AuthProvider storage None = Throw e).
Proof.
  rewrite AuthProvider_render, AuthProvider_first_render. unfold returns.
  destruct (storage !! "userInfo") as [s |].
  - destruct (String.eqb s "").
    + split; [intros st' [= <-]; reflexivity |].
      split; split; intros H; try discriminate; eexists; reflexivity.
    + destruct (JSON_parse s) as [v | e0].
      * split; [intros st' [= <-]; reflexivity |].
        split; split; intros H; try discriminate; eexists; reflexivity.
      * split; [intros st' [=] |].
        split; split; intros H; try exact H; destruct H; discriminate.
  - split; [intros st' [= <-]; reflexivity |].
    split; split; intros H; try discriminate; eexists; reflexivity.
Qed.

(** X12: the render that follows [setAuthInfo] reads back what the call
    stored. It raises when [JSON.parse] rejects the stored text of the
    identity, and the state the call installed is then never rendered;
    otherwise it gives exactly the state the call installed, not what
    [JSON.parse] made of the text. *)
Theorem render_after_setAuthInfo (authInfo : JSValue) (w w' : World) :
  setAuthInfo authInfo w = (Ok tt, w') ->
  let stored := stored_identity (userInfo (authState w')) in
  localStorage w' !! "userInfo" = Some stored
  /\ (forall e, stored <> "" -> JSON_parse stored = Throw e ->
      AuthProvider (localStorage w') (Some (authState w')) = Throw e)
  /\ (stored = "" \/ returns (JSON_parse stored) ->
      AuthProvider (localStorage w') (Some (authState w')) = Ok (authState w')).
Proof.
  intros Hset.
  destruct (setAuthInfo_returns_inv _ _ _ Hset) as (t & u & e & text & _ & _ & _ & _ & ->).
  cbv zeta. rewrite AuthProvider_render, session_installed_userInfo.
  cbn [authState userInfo session_installed].
  split; [reflexivity |]. split.
  - intros e0 Hne Hthrow.
    destruct (String.eqb_spec (stored_identity u) "") as [Heq | _]; [contradiction |].
    rewrite Hthrow. reflexivity.
  - intros [Heq | [v Hv]].
    + rewrite Heq. reflexivity.
    + destruct (String.eqb (stored_identity u) ""); [reflexivity |].
      rewrite Hv. reflexivity.
Qed.

End SessionStore.

(** X7: [isAdmin] raises exactly when the identity of the state is
    [null] or [undefined], and then a TypeError. A state that a render
    hands out after [setAuthInfo] has returned makes it raise exactly
    when the call passed [null] for an identity: that call is rendered,
    with the state it installed. A call that passed no identity stored
    the text [undefined], on which the render raises a SyntaxError, so no
    [isAdmin] sees its state. After [logout] it never raises. *)
Theorem isAdmin_raises_iff (st : AuthState) :
  (forall e, isAdmin st = Throw e <-> e = TypeError /\ absent (userInfo st) = true)
  /\ (forall authInfo w w' st',
        setAuthInfo authInfo w = (Ok tt, w') ->
        AuthProvider (localStorage w') (Some (authState w')) = Ok st' ->
        (isAdmin st' = Throw TypeError <-> Get authInfo "userInfo" = Ok JNull))
  /\ (forall authInfo w w',
        setAuthInfo authInfo w = (Ok tt, w') ->
        Get authInfo "userInfo" = Ok JNull ->
        AuthProvider (localStorage w') (Some (authState w')) = Ok (authState w')
        /\ isAdmin (authState w') = Throw TypeError)
  /\ (forall authInfo w w',
        setAuthInfo authInfo w = (Ok tt, w') ->
        Get authInfo "userInfo" = Ok JUndefined ->
        AuthProvider (localStorage w') (Some (authState w')) = Throw SyntaxError)
  /\ (forall w, isAdmin (authState (logout w)) = Ok false).
Proof.
  split; [apply isAdmin_raises |]. split; [| split; [| split]].
  - intros authInfo w w' st' Hset Hrender.
    pose proof (AuthProvider_render_state _ _ _ Hrender) as ->.
    destruct (setAuthInfo_returns_inv _ _ _ Hset) as (t & u & e & text & _ & Hu & _ & _ & ->).
    rewrite Hu. rewrite isAdmin_raises. cbn [authState userInfo session_installed].
    destruct u; cbn [absent].
    1: rewrite AuthProvider_render, session_installed_userInfo in Hrender; discriminate.
    1: split; [reflexivity | split; reflexivity].
    all: split; [intros [_ [=]] | intros [=]].
  - intros authInfo w w' Hset Hu.
    destruct (setAuthInfo_returns_inv _ _ _ Hset) as (t & u & e & text & _ & Hu' & _ & _ & ->).
    rewrite Hu in Hu'. injection Hu' as <-.
    rewrite AuthProvider_render, session_installed_userInfo. split; reflexivity.
  - intros authInfo w w' Hset Hu.
    destruct (setAuthInfo_returns_inv _ _ _ Hset) as (t & u & e & text & _ & Hu' & _ & _ & ->).
    rewrite Hu in Hu'. injection Hu' as <-.
    rewrite AuthProvider_render, session_installed_userInfo. reflexivity.
  - intros w. reflexivity.
Qed.

(** ** Expiry *)

Section Expiry.
Context {P : Platform}.

(** X5: a session does not come back with time. If [isAuthenticated] is
    true at some time it is true at every earlier time, and once it is
    false it is false at every later time. *)
Theorem isAuthenticated_antitone (st : AuthState) (now later : Z) :
  now <= later ->
  (isAuthenticated st later = Ok true -> isAuthenticated st now = Ok true)
  /\ (isAuthenticated st now = Ok false -> isAuthenticated st later = Ok false).
Proof.
  intros Hle.
  assert (Hcases : (isAuthenticated st now = Ok false /\ isAuthenticated st later = Ok false)
                   \/ (exists err, isAuthenticated st now = Throw err
                                   /\ isAuthenticated st later = Throw err)
                   \/ (exists y, isAuthenticated st now = Ok (number_ltb (seconds now) y)
                                 /\ isAuthenticated st later
                                    = Ok (number_ltb (seconds later) y))).
  { unfold isAuthenticated.
    destruct (negb (ToBoolean (token st)) || negb (ToBoolean (expiresAt st)));
      [left; split; reflexivity | right].
    destruct (ToNumber (expiresAt st)) as [y | err]; cbn.
    - right. exists y. split; reflexivity.
    - left. exists err. split; reflexivity. }
  destruct Hcases as [[H1 H2] | [(err & H1 & H2) | (y & H1 & H2)]]; rewrite H1, H2.
  - split; [discriminate | reflexivity].
  - split; discriminate.
  - pose proof (number_ltb_seconds_mono now later y Hle) as Hmono.
    split.
    + intros [= H]. rewrite (Hmono H). reflexivity.
    + intros [= H]. destruct (number_ltb (seconds later) y); [| reflexivity].
      rewrite Hmono in H by reflexivity. discriminate.
Qed.

(** X6: the expiry is in seconds, the clock in milliseconds, and the
    bound is strict. With a truthy token and a whole number [e] of
    seconds for an expiry, at a clock reading of [now >= 0] milliseconds
    [isAuthenticated] is true exactly when [now < 1000 * e]: it is true
    one millisecond before the expiry and false at the expiry itself. *)
Theorem isAuthenticated_whole_seconds (st : AuthState) (now e : Z) :
  ToBoolean (token st) = true ->
  expiresAt st = JNumber (Dec e 0) ->
  0 <= now ->
  (isAuthenticated st now = Ok true <-> now < 1000 * e).
Proof.
  intros Ht He Hnow. unfold isAuthenticated. rewrite Ht, He.
  cbn [negb orb ToBoolean ToNumber].
  destruct (Z.eqb_spec e 0) as [-> | Hne]; cbn [negb].
  - split; [discriminate | lia].
  - cbn [mbind Result_bind]. rewrite <- (number_ltb_seconds_whole now e Hnow).
    split; [intros [= H]; exact H | intros ->; reflexivity].
Qed.

End Expiry.

(** ** Further properties of the request gateway *)

Lemma instances_length_step (g : Gateway) (ev : GatewayEvent) :
  length (instances (gateway_step g ev)) =
  (length (instances g) + if is_render ev then 1 else 0)%nat.
Proof.
  destruct ev as [| | response | i m u]; cbn.
  - rewrite length_app. reflexivity.
  - unfold run_effect, getCsrfToken_call, request.
    destruct (handshake g); [| lia | lia | lia].
    destruct (instances g !! 0%nat); cbn; lia.
  - unfold getCsrfToken_resume.
    destruct (handshake g); [lia | | lia | lia].
    destruct response as [data |]; [destruct (Get data "csrfToken") |];
      cbn [instances]; rewrite ?length_alter; lia.
  - unfold request. destruct (instances g !! i); cbn; lia.
Qed.

Lemma renders_cons (ev : GatewayEvent) (evs : list GatewayEvent) :
  renders (ev :: evs) = ((if is_render ev then 1 else 0) + renders evs)%nat.
Proof. destruct ev; reflexivity. Qed.

Lemma instances_length_run (evs : list GatewayEvent) (g : Gateway) :
  length (instances (gateway_run evs g)) = (length (instances g) + renders evs)%nat.
Proof.
  revert g. induction evs as [| ev evs IH]; intros g.
  - cbn. unfold renders. cbn. lia.
  - cbn [gateway_run fold_left].
    change (fold_left gateway_step evs ?x) with (gateway_run evs x).
    rewrite IH, instances_length_step, renders_cons. lia.
Qed.

(** X9: every render creates a client, and after a re-render the client
    the provider hands out is not the one of the handshake. Over every
    run with at least one re-render the exposed client has no
    [X-CSRF-Token] header, also when the handshake was fulfilled. *)
Theorem rerender_exposes_unconfigured_client (evs : list GatewayEvent) :
  (0 < renders evs)%nat ->
  let g := gateway_run evs (FetchProvider None) in
  length (instances g) = S (renders evs)
  /\ exists defaults, exposed_client g = Some defaults /\ csrf_header defaults = None.
Proof.
  intros Hr g.
  assert (Hlen : length (instances g) = S (renders evs)).
  { subst g. rewrite instances_length_run. reflexivity. }
  split; [exact Hlen |].
  unfold exposed_client. rewrite last_lookup, Hlen. cbn [pred].
  destruct (renders evs) as [| n] eqn:Hn; [lia |].
  destruct (lookup_lt_is_Some_2 (instances g) (S n) ltac:(lia)) as [d Hd].
  exists d. split; [exact Hd |].
  exact (later_clients_never_configured evs n d Hd).
Qed.

(** X11: what the body of the response does to a pending handshake. A
    body that is [null] or [undefined] rejects it and leaves the header
    unset; any other body fulfils it, and the header of the client of the
    handshake becomes the [csrfToken] property of the body, [undefined]
    when the body has none. *)
Theorem handshake_response_body (evs : list GatewayEvent) (data : JSValue) :
  let g := gateway_run evs (FetchProvider None) in
  handshake g = Pending ->
  let g' := gateway_step g (EvResponse (Some data)) in
  if absent data
  then handshake g' = Rejected /\ instances g' = instances g
  else handshake g' = Fulfilled
       /\ exists defaults,
            instances g' !! 0%nat = Some defaults
            /\ csrf_header defaults =
               Some match data with
                    | JObject props => default JUndefined (lookup_prop "csrfToken" props)
                    | _ => JUndefined
                    end.
Proof.
  intros g Hp g'.
  assert (Hg : gateway_inv g) by apply gateway_inv_run, gateway_inv_mount.
  destruct (getCsrfToken_resume_pending (Some data) g Hg Hp) as [_ H].
  subst g'. cbn [gateway_step].
  destruct data; cbn in H |- *; exact H.
Qed.

(** X13: the handshake, as far as it holds. Over every run of a mounted
    gateway the handshake request has been issued once when the effect
    has run and not at all before; the effect issues it through the
    client of the mounting render, and a second run of the effect does
    nothing. Until the handshake is fulfilled a call through any client
    leaves at once and without the [X-CSRF-Token] header. Once a response
    has delivered a token, every later call through the client of the
    mounting render carries the header with that token. When the
    handshake fails, the promise stays rejected, no second handshake
    request is issued, and calls keep leaving without the header. *)
Theorem csrf_handshake (evs : list GatewayEvent) :
  let g := gateway_run evs (FetchProvider None) in
  length (filter is_handshake (sent g))
  = match handshake g with
    | Scheduled => 0%nat
    | _ => 1%nat
    end
  /\ (handshake g = Scheduled ->
      let g' := gateway_step g EvEffect in
      handshake g' = Pending
      /\ exists first,
           instances g !! 0%nat = Some first
           /\ csrf_header first = None
           /\ sent g' = sent g ++ [mkRequest ByHandshake 0 "GET" "/csrf-token" first])
  /\ (handshake g <> Scheduled -> gateway_step g EvEffect = g)
  /\ (handshake g <> Fulfilled ->
      forall i m u d, instances g !! i = Some d ->
        sent (gateway_step g (EvRequest i m u)) = sent g ++ [mkRequest ByCaller i m u d]
        /\ csrf_header d = None)
  /\ (handshake g = Pending ->
      forall response t later m u,
        fetched_token response = Some t ->
        let g' := gateway_run (EvResponse response :: later) g in
        handshake g' = Fulfilled
        /\ exists r, sent (gateway_step g' (EvRequest 0 m u)) = sent g' ++ [r]
                     /\ origin r = ByCaller
                     /\ csrf_header (headers r) = Some t)
  /\ (handshake g = Pending ->
      forall response later m u,
        fetched_token response = None ->
        let g' := gateway_run (EvResponse response :: later) g in
        handshake g' = Rejected
        /\ length (filter is_handshake (sent g')) = 1%nat
        /\ exists r, sent (gateway_step g' (EvRequest 0 m u)) = sent g' ++ [r]
                     /\ origin r = ByCaller
                     /\ csrf_header (headers r) = None).
Proof.
  intros g.
  assert (Hg : gateway_inv g) by apply gateway_inv_run, gateway_inv_mount.
  split; [destruct Hg as (? & ? & _ & _ & _ & Hs); exact Hs |].
  split.
  { intros Hs g'. subst g'. destruct Hg as (first & later & Hi & _ & Hf & _).
    cbn [gateway_step]. unfold run_effect. rewrite Hs.
    unfold getCsrfToken_call, request. rewrite Hi. cbn.
    split; [reflexivity |]. exists first. split; [reflexivity |].
    split; [apply Hf; congruence | reflexivity]. }
  split.
  { intros Hs. cbn [gateway_step]. unfold run_effect.
    destruct (handshake g); [contradiction | reflexivity | reflexivity | reflexivity]. }
  split.
  { intros Hnf i m u d Hd. destruct Hg as (first & later & Hi & Hl & Hf & _).
    split.
    - cbn. unfold request. rewrite Hd. reflexivity.
    - rewrite Hi in Hd. destruct i as [| i]; cbn in Hd.
      + injection Hd as <-. apply Hf, Hnf.
      + rewrite Forall_lookup in Hl. exact (Hl _ _ Hd). }
  split.
  { intros Hp response t later m u Ht g'. subst g'. cbn [gateway_run fold_left].
    change (fold_left gateway_step later ?x) with (gateway_run later x).
    cbn [gateway_step].
    destruct (getCsrfToken_resume_pending response g Hg Hp) as [_ Hres].
    rewrite Ht in Hres. destruct Hres as (Hful & defaults & Hd & Hc).
    pose proof (gateway_inv_step g (EvResponse response) Hg) as Hinv. cbn in Hinv.
    destruct (gateway_settled_run later _ Hinv (or_introl Hful)) as [Hh Hi].
    split; [congruence |].
    eexists. split; [apply request_first_client; rewrite Hi; exact Hd |].
    split; [reflexivity | exact Hc]. }
  intros Hp response later m u Ht g'. subst g'. cbn [gateway_run fold_left].
  change (fold_left gateway_step later ?x) with (gateway_run later x).
  cbn [gateway_step].
  destruct (getCsrfToken_resume_pending response g Hg Hp) as [_ Hres].
  rewrite Ht in Hres. destruct Hres as [Hrej Hsame].
  pose proof (gateway_inv_step g (EvResponse response) Hg) as Hinv. cbn in Hinv.
  destruct (gateway_settled_run later _ Hinv (or_intror Hrej)) as [Hh Hi].
  pose proof (gateway_inv_run later _ Hinv) as (first & rest & Hi' & _ & Hf & Hs).
  split; [congruence |].
  split; [rewrite Hs; unfold gateway_run in Hh; unfold gateway_run; rewrite Hh, Hrej;
          reflexivity |].
  eexists. split; [apply request_first_client; rewrite Hi'; reflexivity |].
  split; [reflexivity |]. apply Hf. congruence.
Qed.

(** ** The further properties at work *)

Lemma reload_after_setAuthInfo_witness :
  let authInfo := session (JObject [("role", JString "admin")]) (JString "t0k3n")
                    (JNumber (Dec 2000000000 0)) in
  exists w' w'',
    setAuthInfo authInfo (mkWorld ∅ emptyAuthState []) = (Ok tt, w')
    /\ hydrate (localStorage w') [] = Ok w''
    /\ token (authState w'') = JNull
    /\ expiresAt (authState w') = JNumber (Dec 2000000000 0)
    /\ expiresAt (authState w'') = JString "2000000000"
    /\ isAuthenticated (authState w') 1700000000000 = Ok true
    /\ isAuthenticated (authState w'') 1700000000000 = Ok false.
Proof.
  intros authInfo.
  pose (w := mkWorld ∅ emptyAuthState []).
  pose (w' := snd (setAuthInfo authInfo w)).
  pose (w'' := mkWorld (localStorage w')
                 (mkAuthState JNull (JString "2000000000")
                    (JObject [("role", JString "admin")])) []).
  assert (Hset : setAuthInfo authInfo w = (Ok tt, w')) by (vm_compute; reflexivity).
  assert (Hhyd : hydrate (localStorage w') [] = Ok w'') by (vm_compute; reflexivity).
  exists w', w''. split; [exact Hset |]. split; [exact Hhyd |].
  destruct (reload_after_setAuthInfo authInfo w w' w'' [] Hset Hhyd)
    as (Ht & _ & _ & _ & Hauth).
  split; [exact Ht |]. split; [reflexivity |]. split; [reflexivity |].
  split; [vm_compute; reflexivity | apply Hauth].
Defined.

Lemma logout_after_setAuthInfo_witness :
  let authInfo := session (JObject []) (JString "t0k3n") (JNumber (Dec 2000000000 0)) in
  let w := mkWorld {[ "theme" := "dark" ]} emptyAuthState [] in
  exists w',
    setAuthInfo authInfo w = (Ok tt, w')
    /\ localStorage w' !! "expiresAt" = Some "2000000000"
    /\ localStorage (logout w') = {[ "theme" := "dark" ]}.
Proof.
  intros authInfo w.
  pose (w' := snd (setAuthInfo authInfo w)).
  assert (Hset : setAuthInfo authInfo w = (Ok tt, w')) by (vm_compute; reflexivity).
  exists w'. split; [exact Hset |]. split; [vm_compute; reflexivity |].
  destruct (logout_after_setAuthInfo authInfo w w' Hset) as (_ & Hback & _).
  rewrite Hback; reflexivity.
Defined.

Lemma setAuthInfo_last_wins_witness :
  let first := session (JObject [("role", JString "admin")]) (JString "one")
                 (JNumber (Dec 2000000000 0)) in
  let second := JObject [("token", JString "two")] in
  let w := mkWorld ∅ emptyAuthState [] in
  exists w1 w2,
    setAuthInfo first w = (Ok tt, w1)
    /\ setAuthInfo second w1 = (Ok tt, w2)
    /\ setAuthInfo second w = (Ok tt, w2)
    /\ localStorage w2 !! "expiresAt" = Some "undefined".
Proof.
  intros first second w.
  pose (w1 := snd (setAuthInfo first w)).
  pose (w2 := snd (setAuthInfo second w1)).
  assert (H1 : setAuthInfo first w = (Ok tt, w1)) by (vm_compute; reflexivity).
  assert (H2 : setAuthInfo second w1 = (Ok tt, w2)) by (vm_compute; reflexivity).
  exists w1, w2. split; [exact H1 |]. split; [exact H2 |].
  split; [| vm_compute; reflexivity].
  exact (setAuthInfo_last_wins first second w w1 w2 H1 H2).
Defined.

Lemma isAdmin_raises_iff_witness :
  let authInfo := session JNull (JString "t0k3n") (JNumber (Dec 2000000000 0)) in
  exists w' st',
    setAuthInfo authInfo (mkWorld ∅ emptyAuthState []) = (Ok tt, w')
    /\ localStorage w' !! "userInfo" = Some "null"
    /\ AuthProvider (localStorage w') (Some (authState w')) = Ok st'
    /\ isAdmin st' = Throw TypeError.
Proof.
  intros authInfo.
  pose (w := mkWorld ∅ emptyAuthState []).
  pose (w' := snd (setAuthInfo authInfo w)).
  assert (Hset : setAuthInfo authInfo w = (Ok tt, w')) by (vm_compute; reflexivity).
  assert (Hrender : AuthProvider (localStorage w') (Some (authState w')) = Ok (authState w'))
    by (vm_compute; reflexivity).
  exists w', (authState w'). split; [exact Hset |]. split; [vm_compute; reflexivity |].
  split; [exact Hrender |].
  destruct (isAdmin_raises_iff emptyAuthState) as (_ & Hafter & _).
  apply (Hafter authInfo w w' (authState w') Hset Hrender). reflexivity.
Defined.

Lemma rerender_keeps_state_witness :
  let st := mkAuthState (JString "t0k3n") (JNumber (Dec 2000000000 0)) (JObject []) in
  AuthProvider {[ "userInfo" := "[1, 2]" ]} (Some st) = Ok st
  /\ AuthProvider {[ "userInfo" := "not json" ]} (Some st) = Throw SyntaxError.
Proof.
  intros st. split.
  - destruct (rerender_keeps_state {[ "userInfo" := "[1, 2]" ]} st) as (Hsame & Hret & _).
    destruct (proj2 Hret) as [st' Hst'].
    + eexists. vm_compute. reflexivity.
    + rewrite Hst'. f_equal. exact (Hsame st' Hst').
  - apply (proj2 (proj2 (rerender_keeps_state {[ "userInfo" := "not json" ]} st))).
    vm_compute. reflexivity.
Defined.

Lemma isAuthenticated_antitone_witness :
  let st := mkAuthState (JString "t0k3n") (JNumber (Dec 2000000000 0)) (JObject []) in
  isAuthenticated st 1700000000000 = Ok true
  /\ isAuthenticated st 2000000000001 = Ok false
  /\ isAuthenticated st 2100000000000 = Ok false.
Proof.
  intros st.
  assert (Hbefore : isAuthenticated st 1999999999999 = Ok true) by (vm_compute; reflexivity).
  assert (Hafter : isAuthenticated st 2000000000001 = Ok false) by (vm_compute; reflexivity).
  split.
  - apply (proj1 (isAuthenticated_antitone st 1700000000000 1999999999999 ltac:(lia))).
    exact Hbefore.
  - split; [exact Hafter |].
    apply (proj2 (isAuthenticated_antitone st 2000000000001 2100000000000 ltac:(lia))).
    exact Hafter.
Defined.

Lemma isAuthenticated_whole_seconds_witness :
  let st := mkAuthState (JString "t0k3n") (JNumber (Dec 2000000000 0)) (JObject []) in
  isAuthenticated st 1999999999999 = Ok true
  /\ isAuthenticated st 2000000000000 <> Ok true.
Proof.
  intros st. split.
  - apply (proj2 (isAuthenticated_whole_seconds st 1999999999999 2000000000
                    eq_refl eq_refl ltac:(lia))). lia.
  - intros H.
    apply (proj1 (isAuthenticated_whole_seconds st 2000000000000 2000000000
                    eq_refl eq_refl ltac:(lia))) in H. lia.
Defined.

Lemma rerender_exposes_unconfigured_client_witness :
  let data := JObject [("csrfToken", JString "c5rf")] in
  let evs := [EvEffect; EvResponse (Some data); EvRender] in
  let g := gateway_run evs (FetchProvider None) in
  handshake g = Fulfilled
  /\ (exists first, instances g !! 0%nat = Some first
                    /\ csrf_header first = Some (JString "c5rf"))
  /\ exists defaults, exposed_client g = Some defaults /\ csrf_header defaults = None.
Proof.
  intros data evs g.
  split; [reflexivity |].
  split; [eexists; split; reflexivity |].
  assert (Hr : (0 < renders evs)%nat)
    by (unfold evs; rewrite !renders_cons; cbn [is_render]; lia).
  exact (proj2 (rerender_exposes_unconfigured_client evs Hr)).
Defined.

Lemma handshake_response_body_witness :
  let g := gateway_run [EvEffect] (FetchProvider None) in
  (let g' := gateway_step g (EvResponse (Some (JObject []))) in
   handshake g' = Fulfilled
   /\ exists defaults, instances g' !! 0%nat = Some defaults
                       /\ csrf_header defaults = Some JUndefined)
  /\ (let g' := gateway_step g (EvResponse (Some JNull)) in
      handshake g' = Rejected /\ instances g' = instances g).
Proof.
  split.
  - exact (handshake_response_body [EvEffect] (JObject []) eq_refl).
  - exact (handshake_response_body [EvEffect] JNull eq_refl).
Defined.

Lemma csrf_handshake_witness :
  let early := [EvRequest 0 "POST" "/inventory"; EvEffect; EvRequest 0 "POST" "/inventory"] in
  let data := JObject [("csrfToken", JString "c5rf")] in
  let g := gateway_run early (FetchProvider None) in
  handshake (FetchProvider None) = Scheduled
  /\ handshake (gateway_step (FetchProvider None) EvEffect) = Pending
  /\ handshake g = Pending
  /\ gateway_step g EvEffect = g
  /\ List.map (fun r => (origin r, csrf_header (headers r))) (sent g)
     = [(ByCaller, None); (ByHandshake, None); (ByCaller, None)]
  /\ (let g' := gateway_run [EvResponse (Some data); EvRequest 0 "GET" "/stats"] g in
      handshake g' = Fulfilled
      /\ exists r, sent (gateway_step g' (EvRequest 0 "POST" "/inventory")) = sent g' ++ [r]
                   /\ origin r = ByCaller
                   /\ csrf_header (headers r) = Some (JString "c5rf"))
  /\ (let g' := gateway_run [EvResponse None; EvResponse (Some data)] g in
      handshake g' = Rejected
      /\ length (filter is_handshake (sent g')) = 1%nat
      /\ exists r, sent (gateway_step g' (EvRequest 0 "POST" "/inventory")) = sent g' ++ [r]
                   /\ origin r = ByCaller
                   /\ csrf_header (headers r) = None).
Proof.
  intros early data g.
  assert (Hs : handshake (gateway_run [] (FetchProvider None)) = Scheduled) by reflexivity.
  assert (Hp : handshake g = Pending) by reflexivity.
  split; [exact Hs |].
  split; [exact (proj1 (proj1 (proj2 (csrf_handshake [])) Hs)) |].
  split; [exact Hp |].
  destruct (csrf_handshake early) as (_ & _ & Honce & _ & Hok & Hfail).
  split; [apply Honce; vm_compute; discriminate |].
  split; [reflexivity |].
  split.
  - apply (Hok Hp (Some data) (JString "c5rf") [EvRequest 0 "GET" "/stats"]). reflexivity.
  - apply (Hfail Hp None [EvResponse (Some data)]). reflexivity.
Defined.

Lemma render_after_setAuthInfo_witness :
  let w := mkWorld ∅ emptyAuthState [] in
  let login := session (JObject [("role", JString "admin")]) (JString "t0k3n")
                 (JNumber (Dec 2000000000 0)) in
  let partial := JObject [("token", JString "t0k3n")] in
  (exists w',
     setAuthInfo login w = (Ok tt, w')
     /\ AuthProvider (localStorage w') (Some (authState w')) = Ok (authState w'))
  /\ (exists w',
        setAuthInfo partial w = (Ok tt, w')
        /\ AuthProvider (localStorage w') (Some (authState w')) = Throw SyntaxError).
Proof.
  intros w login partial. split.
  - pose (w' := snd (setAuthInfo login w)).
    assert (Hset : setAuthInfo login w = (Ok tt, w')) by (vm_compute; reflexivity).
    exists w'. split; [exact Hset |].
    apply (proj2 (proj2 (render_after_setAuthInfo login w w' Hset))).
    right. eexists. vm_compute. reflexivity.
  - pose (w' := snd (setAuthInfo partial w)).
    assert (Hset : setAuthInfo partial w = (Ok tt, w')) by (vm_compute; reflexivity).
    exists w'. split; [exact Hset |].
    apply (proj1 (proj2 (render_after_setAuthInfo partial w w' Hset)) SyntaxError).
    + vm_compute. discriminate.
    + vm_compute. reflexivity.
Defined.

(** ** The reference platform at work *)

Example parse_accepts :
  List.map JSON_parse ["{}"; " [1, 2.5e3, -0, true, null, [[]]] "; "12"]
  = [Ok (JObject []);
     Ok (JArray [JNumber (Dec 1 0); JNumber (Dec 2500 0); JNumber (Dec 0 0);
                 JBool true; JNull; JArray [JArray []]]);
     Ok (JNumber (Dec 12 0))].
Proof. vm_compute. reflexivity. Qed.

Example parse_rejects :
  List.map JSON_parse ["undefined"; "{"; "01"; "1 2"; "nul"; "[1,]"; "{,}"; "-"; "1.e3"; "{}{}"]
  = repeat (Throw SyntaxError) 10.
Proof. vm_compute. reflexivity. Qed.

Example parse_stringify :
  let identity := JObject [("role", JString "admin"); ("7", JNull);
                           ("nick", JUndefined); ("role", JString "user")] in
  JSON_parse (stored_identity identity)
  = Ok (JObject [("7", JNull); ("role", JString "user")]).
Proof. vm_compute. reflexivity. Qed.

(** Numbers are binary64: a literal is rounded to the nearest one, and a
    number is printed with the fewest digits that read back as itself. *)
Example number_to_string_forms :
  List.map NumberToString
    [Dec 2000000000 0; Dec 15 (-1); Dec (-15) (-1); Dec 1 21; Dec 123 (-9); Dec 0 4; NaN;
     Dec 1152921504606846976 0; StringToNumber "0.1"; seconds 1700000000002]
  = ["2000000000"; "1.5"; "-1.5"; "1e+21"; "1.23e-7"; "0"; "NaN";
     "1152921504606847000"; "0.1"; "1700000000.002"].
Proof. vm_compute. reflexivity. Qed.

Example string_to_number_forms :
  List.map StringToNumber
    ["1000000000"; " 12.5e3 "; ""; "abc"; "0x1F"; "-Infinity"; ".5"; "12px";
     "1e-400"; "1e400"; "9007199254740993"; "0.1"]
  = [Dec 1000000000 0; Dec 12500 0; Dec 0 0; NaN; Dec 31 0; Infinity true; Dec 5 (-1); NaN;
     Dec 0 0; Infinity false; Dec 9007199254740992 0;
     Dec 1000000000000000055511151231257827021181583404541015625 (-55)].
Proof. vm_compute. reflexivity. Qed.

Example parse_rounds_numbers :
  List.map JSON_parse ["1e400"; "9007199254740993"; "1e-400"]
  = [Ok (JNumber (Infinity false)); Ok (JNumber (Dec 9007199254740992 0));
     Ok (JNumber (Dec 0 0))].
Proof. vm_compute. reflexivity. Qed.

(** The quotient of the clock reading is a binary64 number: at a reading
    of 1700000000002 milliseconds it is the number the literal
    1700000000.002 denotes, so a session with that expiry is over, and
    one millisecond earlier it is not. *)
Example isAuthenticated_binary64_quotient :
  let st := mkAuthState (JString "t0k3n") (JNumber (StringToNumber "1700000000.002"))
              (JObject []) in
  seconds 1700000000002 = StringToNumber "1700000000.002"
  /\ isAuthenticated st 1700000000001 = Ok true
  /\ isAuthenticated st 1700000000002 = Ok false.
Proof. vm_compute. repeat split. Qed.

(** Values without a string form. *)
Example conversions_raise :
  let bad := JObject [("toString", JNumber (Dec 1 0))] in
  List.map ToString [bad; JArray [JNull; bad]; JObject []; JArray [JNull; JNumber (Dec 1 0)]]
  = [Throw TypeError; Throw TypeError; Ok "[object Object]"; Ok ",1"]
  /\ List.map ToNumber [bad; JArray [bad]; JObject []; JArray []; JArray [JString "7"]]
     = [Throw TypeError; Throw TypeError; Ok NaN; Ok (Dec 0 0); Ok (Dec 7 0)].
Proof. vm_compute. split; reflexivity. Qed.

(** A call that passes no identity stores the text [undefined]; the
    render that follows evaluates [JSON.parse] on it and raises. *)
Example render_after_missing_identity :
  let authInfo := JObject [("token", JString "t0k3n");
                           ("expiresAt", JNumber (Dec 2000000000 0))] in
  exists w',
    setAuthInfo authInfo (mkWorld ∅ emptyAuthState []) = (Ok tt, w')
    /\ localStorage w' !! "userInfo" = Some "undefined"
    /\ AuthProvider (localStorage w') (Some (authState w')) = Throw SyntaxError.
Proof. eexists. split; [vm_compute; reflexivity |]. vm_compute. repeat split. Qed.

(** The scenario of the specification: a login as administrator, then a
    logout. *)
Example login_then_logout :
  let now := 1700000000000 in
  let authInfo := session (JObject [("role", JString "admin")]) (JString "t0k3n")
                    (JNumber (Dec 1700003600 0)) in
  exists w,
    setAuthInfo authInfo (mkWorld ∅ emptyAuthState []) = (Ok tt, w)
    /\ isAuthenticated (authState w) now = Ok true
    /\ isAdmin (authState w) = Ok true
    /\ isAuthenticated (authState (logout w)) now = Ok false
    /\ isAdmin (authState (logout w)) = Ok false
    /\ localStorage (logout w) = ∅.
Proof. eexists. split; [vm_compute; reflexivity |]. vm_compute. repeat split. Qed.
